(** * The epicycle trajectory engine of [blend.py]

    A shallow embedding of the classes [Circle] and [Epicycle] and of the
    numpy primitives they call, followed by the properties of the
    trajectory, the period and the error paths.

    - float64 arithmetic is an interface ([Float64]): every operation of
      the program is kept in the order the program applies it, and the
      theorems hold for any interpretation of the interface.  The real
      numbers give one interpretation ([Float64_R]), used for concrete
      runs.
    - a Python method is a function from the object's state to an outcome
      and the state the call leaves behind; a raised exception keeps the
      mutations made before it, as in Python. *)

From Stdlib Require Import ZArith List Bool Lia Reals Lra.
Import ListNotations.

Set Implicit Arguments.

(** ** Exceptions and the method monad *)

Inductive exn : Type :=
| ValueError
| AttributeError
| TypeError
| IndexError
| OverflowError.

Inductive result (A : Type) : Type :=
| Ok (a : A)
| Raise (e : exn).
Arguments Ok {A} a.
Arguments Raise {A} e.

(** [M S A]: a method of an object with state [S] returning an [A]. *)
Definition M (S A : Type) : Type := S -> result A * S.

Definition ret {S A : Type} (a : A) : M S A := fun s => (Ok a, s).

Definition raise {S A : Type} (e : exn) : M S A := fun s => (Raise e, s).

Definition bind {S A B : Type} (m : M S A) (k : A -> M S B) : M S B :=
  fun s =>
    match m s with
    | (Ok a, s') => k a s'
    | (Raise e, s') => (Raise e, s')
    end.

Definition get {S : Type} : M S S := fun s => (Ok s, s).

Definition put {S : Type} (s : S) : M S unit := fun _ => (Ok tt, s).

Definition modify {S : Type} (f : S -> S) : M S unit := fun s => (Ok tt, f s).

(** A computation that cannot touch the state ([np.stack], indexing). *)
Definition lift {S A : Type} (r : result A) : M S A := fun s => (r, s).

Declare Scope py_scope.
Delimit Scope py_scope with py.
Notation "x <- m ;; k" := (bind m (fun x => k))
  (at level 61, m at next level, right associativity) : py_scope.
Notation "m ;; k" := (bind m (fun _ => k))
  (at level 61, right associativity) : py_scope.

(** [for a in l: body a] *)
Fixpoint for_each {S A : Type} (l : list A) (body : A -> M S unit) : M S unit :=
  match l with
  | [] => ret tt
  | a :: l' => bind (body a) (fun _ => for_each l' body)
  end.

(** ** float64 arithmetic *)

Class Float64 (F : Type) : Type := {
  fzero : F;                 (* 0.0 *)
  fone : F;                  (* 1.0 *)
  fpi : F;                   (* np.pi *)
  fadd : F -> F -> F;
  fmul : F -> F -> F;
  fdiv : F -> F -> F;
  fcos : F -> F;
  fsin : F -> F;
  of_int : Z -> F;           (* int -> float64 *)
  trunc : F -> Z             (* int(x): rounding toward zero *)
}.

(** The reals as an interpretation. *)
Definition Rtrunc (r : R) : Z :=
  if Rle_dec 0 r then Zfloor r else Zceil r.

#[export] Instance Float64_R : Float64 R := {
  fzero := 0%R;
  fone := 1%R;
  fpi := PI;
  fadd := Rplus;
  fmul := Rmult;
  fdiv := Rdiv;
  fcos := cos;
  fsin := sin;
  of_int := IZR;
  trunc := Rtrunc
}.

(** ** The numpy primitives the program calls *)

Module Np.
Section Numpy.
Context {F : Type} `{Float64 F}.

(** A one-dimensional float64 array. *)
Definition vec : Type := list F.

(** An array of rank one or two, a rank-two array by its rows. *)
Inductive ndarray : Type :=
| Arr1 (v : vec)
| Arr2 (rows : list vec).

(** [len(a.shape)] *)
Definition ndim (a : ndarray) : nat :=
  match a with
  | Arr1 _ => 1
  | Arr2 _ => 2
  end.

(** [a.shape] *)
Definition shape (a : ndarray) : list nat :=
  match a with
  | Arr1 v => [length v]
  | Arr2 rows => [length rows; length (hd [] rows)]
  end.

(** [a[r]] of a rank-two array, [a[r][i]] being [nth_error] of the row. *)
Definition row (a : ndarray) (r : nat) : option vec :=
  match a with
  | Arr1 _ => None
  | Arr2 rows => nth_error rows r
  end.

(** [np.empty((0,), dtype=np.float64)] *)
Definition empty0 : vec := [].

(** [np.zeros_like(a)] and [np.ones_like(a)] *)
Definition zeros_like (a : vec) : vec := map (fun _ => fzero) a.
Definition ones_like (a : vec) : vec := map (fun _ => fone) a.

(** [a * s], [a + s] and [s * a] for an array [a] and a scalar [s] *)
Definition mul_scalar (a : vec) (s : F) : vec := map (fun t => fmul t s) a.
Definition add_scalar (a : vec) (s : F) : vec := map (fun t => fadd t s) a.
Definition scalar_mul (s : F) (a : vec) : vec := map (fun t => fmul s t) a.

(** [np.cos(a)] and [np.sin(a)] *)
Definition cos (a : vec) : vec := map fcos a.
Definition sin (a : vec) : vec := map fsin a.

Fixpoint zip_with (f : F -> F -> F) (x y : vec) : vec :=
  match x, y with
  | a :: x', b :: y' => f a b :: zip_with f x' y'
  | _, _ => []
  end.

(** [x += y] on rank-one arrays: [y] is broadcast to the shape of [x],
    which succeeds when the lengths agree or [y] has length one; the
    output operand [x] is never resized. *)
Definition iadd (x y : vec) : result vec :=
  if Nat.eqb (length y) (length x) then Ok (zip_with fadd x y)
  else match y with
       | [b] => Ok (map (fun a => fadd a b) x)
       | _ => Raise ValueError
       end.

(** [np.stack(arrays)] of rank-one arrays: all shapes must agree and there
    must be at least one array. *)
Definition stack (arrays : list vec) : result ndarray :=
  match arrays with
  | [] => Raise ValueError
  | a :: rest =>
      if forallb (fun b => Nat.eqb (length b) (length a)) rest
      then Ok (Arr2 arrays)
      else Raise ValueError
  end.

(** A rank-one array as a caller can build it: of dtype float64 (or of
    another numeric dtype, through its conversion), of a str dtype, an
    item being given by what [float(s)] makes of it ([None] when that
    raises), or of dtype object, the items being Python floats or
    [None]. *)
Inductive array1 : Type :=
| Float64Array (v : vec)
| StrArray (items : list (option F))
| ObjectArray (items : list (option F)).

(** The items when every one is a float, or converts to one. *)
Fixpoint all_floats (items : list (option F)) : option vec :=
  match items with
  | [] => Some []
  | Some x :: items' =>
      match all_floats items' with
      | Some v => Some (x :: v)
      | None => None
      end
  | None :: _ => None
  end.

(** [a.astype(np.float64)]: a str item that does not parse raises
    [ValueError], the item [None] of an object array [TypeError]. *)
Definition astype_float64 (a : array1) : result vec :=
  match a with
  | Float64Array v => Ok v
  | StrArray items =>
      match all_floats items with
      | Some v => Ok v
      | None => Raise ValueError
      end
  | ObjectArray items =>
      match all_floats items with
      | Some v => Ok v
      | None => Raise TypeError
      end
  end.

(** The dtype of the result of an arithmetic operation, whose items are
    floats in both cases. *)
Inductive dtype : Type :=
| float64
| object.

(** [a * s] for a rank-one array [a] of any dtype and a float [s]: there
    is no such product for a str dtype, and the product of an object
    array is taken item by item, [None * s] raising. *)
Definition mul_float (a : array1) (s : F) : result (dtype * vec) :=
  match a with
  | Float64Array v => Ok (float64, mul_scalar v s)
  | StrArray _ => Raise TypeError
  | ObjectArray items =>
      match all_floats items with
      | Some v => Ok (object, mul_scalar v s)
      | None => Raise TypeError
      end
  end.

(** [np.cos(a)] and [np.sin(a)] by dtype: on an object array they call
    the method [cos] or [sin] of every item, which a float does not
    have; an empty array has no item to call it on. *)
Definition cos_of (a : dtype * vec) : result (dtype * vec) :=
  match a with
  | (float64, v) => Ok (float64, cos v)
  | (object, []) => Ok (object, [])
  | (object, _ :: _) => Raise TypeError
  end.

Definition sin_of (a : dtype * vec) : result (dtype * vec) :=
  match a with
  | (float64, v) => Ok (float64, sin v)
  | (object, []) => Ok (object, [])
  | (object, _ :: _) => Raise TypeError
  end.

(** int64, the dtype [int] stands for. *)
Definition int64_min : Z := - 2 ^ 63.
Definition int64_max : Z := 2 ^ 63 - 1.

Definition in_int64 (z : Z) : bool :=
  (int64_min <=? z)%Z && (z <=? int64_max)%Z.

Definition wrap64 (z : Z) : Z := ((z + 2 ^ 63) mod 2 ^ 64 - 2 ^ 63)%Z.

(** [np.array(l, dtype=int)]: every item goes through [int(...)]; one
    that does not fit the dtype raises. *)
Fixpoint array_int (l : list F) : result (list Z) :=
  match l with
  | [] => Ok []
  | x :: l' =>
      if in_int64 (trunc x) then
        match array_int l' with
        | Ok zs => Ok (trunc x :: zs)
        | Raise e => Raise e
        end
      else Raise OverflowError
  end.

(** [np.lcm(a, b)] on int64: the lcm of the absolute values, computed in
    64 bits. *)
Definition lcm (a b : Z) : Z := wrap64 (Z.lcm a b).

(** [np.lcm.reduce(a)]: [lcm] has no identity, so the reduction starts
    from the first item and an empty array is an error. *)
Definition lcm_reduce (a : list Z) : result Z :=
  match a with
  | [] => Raise ValueError
  | z :: rest => Ok (fold_left lcm rest z)
  end.

End Numpy.

Arguments vec : clear implicits.
Arguments ndarray : clear implicits.
Arguments array1 : clear implicits.
End Np.

(** ** Python values and calls *)

Section Python.
Context {F : Type} `{Float64 F}.

(** The values a caller can hand to a method that takes [Any]: [None], a
    float, a list of floats, an array of floats of rank one or two, or a
    rank-one array of a str dtype or of dtype object. *)
Inductive pyobj : Type :=
| PyNone
| PyFloat (x : F)
| PyList (l : list F)
| PyNdarray (a : Np.ndarray F)
| PyStrArray (items : list (option F))
| PyObjectArray (items : list (option F)).

(** A method: the number of its positional parameters ([self] included)
    and its body, run on the arguments after [self]. *)
Record pymethod (S : Type) : Type := {
  params : nat;
  body : list pyobj -> M S unit
}.

(** [f(self, *args)]: a call with the wrong number of arguments raises
    [TypeError] before the body runs. *)
Definition call {S : Type} (f : pymethod S) (args : list pyobj) : M S unit :=
  if Nat.eqb (1 + length args) (params f) then body f args
  else raise TypeError.

(** [obj.attr = value] for a property [attr] whose setter is [fset]. *)
Definition set_property {S : Type} (fset : pymethod S) (value : pyobj)
  : M S unit :=
  call fset [value].

(** [l[i]] on a Python list *)
Definition getitem {A : Type} (l : list A) (i : nat) : result A :=
  match nth_error l i with
  | Some a => Ok a
  | None => Raise IndexError
  end.

End Python.

Arguments pyobj : clear implicits.
Arguments pymethod : clear implicits.

Local Open Scope py_scope.

(** [isinstance(value, np.ndarray) and len(value.shape) == 1], with the
    array when the test holds: the test looks at the class and at the
    rank, not at the dtype. *)
Definition as_rank1 {F : Type} `{Float64 F} (value : pyobj F)
  : option (Np.array1 F) :=
  match value with
  | PyNdarray a =>
      if Nat.eqb (Np.ndim a) 1
      then match a with
           | Np.Arr1 v => Some (Np.Float64Array v)
           | Np.Arr2 _ => None
           end
      else None
  | PyStrArray items => Some (Np.StrArray items)
  | PyObjectArray items => Some (Np.ObjectArray items)
  | _ => None
  end.

(** ** class Circle *)

Module Circle.
Section Circle.
Context {F : Type} `{Float64 F}.

Record t : Type := {
  radius : F;
  speed : F;
  angle_i : F;
  _angles : Np.vec F;
  _local_x : Np.vec F;
  _local_y : Np.vec F
}.

Definition set_angles (v : Np.vec F) (c : t) : t :=
  {| radius := radius c; speed := speed c; angle_i := angle_i c;
     _angles := v; _local_x := _local_x c; _local_y := _local_y c |}.

Definition set_local_x (v : Np.vec F) (c : t) : t :=
  {| radius := radius c; speed := speed c; angle_i := angle_i c;
     _angles := _angles c; _local_x := v; _local_y := _local_y c |}.

Definition set_local_y (v : Np.vec F) (c : t) : t :=
  {| radius := radius c; speed := speed c; angle_i := angle_i c;
     _angles := _angles c; _local_x := _local_x c; _local_y := v |}.

Definition __init__ (radius speed angle_i : F) (angles : option (Np.vec F)) : t :=
  let self :=
    {| radius := radius; speed := speed; angle_i := angle_i;
       _angles := Np.empty0; _local_x := Np.empty0; _local_y := Np.empty0 |} in
  match angles with
  | None => set_angles Np.empty0 self
  | Some a => set_angles a self
  end.

(** Property getters. *)
Definition local_trajectory : M t (Np.ndarray F) :=
  self <- get ;; lift (Np.stack [_local_x self; _local_y self]).

Definition angles : M t (Np.vec F) := self <- get ;; ret (_angles self).
Definition local_x : M t (Np.vec F) := self <- get ;; ret (_local_x self).
Definition local_y : M t (Np.vec F) := self <- get ;; ret (_local_y self).

(** Property setters: [def angles(self, value)], and the same for
    [local_x] and [local_y]. *)
Definition angles_setter : pymethod F t :=
  {| params := 2; body := fun _ => raise AttributeError |}.

Definition local_x_setter : pymethod F t :=
  {| params := 2; body := fun _ => raise AttributeError |}.

Definition local_y_setter : pymethod F t :=
  {| params := 2; body := fun _ => raise AttributeError |}.

(** The fields hold the items of an array; the dtype of the array bound
    to [self._angles] is carried beside it, for [np.cos] and [np.sin]. *)
Definition update_arrays (time : pyobj F) : M t unit :=
  match as_rank1 time with
  | Some time =>
      self <- get ;;
      product <- lift (Np.mul_float time (speed self)) ;;
      let angles :=
        (fst product, Np.add_scalar (snd product) (angle_i self)) in
      put (set_angles (snd angles) self) ;;
      self <- get ;;
      cosines <- lift (Np.cos_of angles) ;;
      put (set_local_x (Np.scalar_mul (radius self) (snd cosines)) self) ;;
      self <- get ;;
      sines <- lift (Np.sin_of angles) ;;
      put (set_local_y (Np.scalar_mul (radius self) (snd sines)) self)
  | None => raise ValueError
  end.

End Circle.

Arguments t : clear implicits.
End Circle.

(** Run a method on every object of a list, in order; the objects are
    mutated in place, so those before a raising one stay updated. *)
Fixpoint for_each_object {C : Type} (m : M C unit) (l : list C)
  : result unit * list C :=
  match l with
  | [] => (Ok tt, [])
  | c :: l' =>
      match m c with
      | (Ok _, c') =>
          let (r, l'') := for_each_object m l' in (r, c' :: l'')
      | (Raise e, c') => (Raise e, c' :: l')
      end
  end.

(** ** class Epicycle *)

Module Epicycle.
Section Epicycle.
Context {F : Type} `{Float64 F}.

Record t : Type := {
  _circles : list (Circle.t F);
  _time : Np.vec F;
  _x : Np.vec F;
  _y : Np.vec F;
  _period_changed : bool;
  _trajectory_changed : bool;
  _period : F;
  _trajectory : Np.ndarray F
}.

Definition set_circles (v : list (Circle.t F)) (e : t) : t :=
  {| _circles := v; _time := _time e; _x := _x e; _y := _y e;
     _period_changed := _period_changed e;
     _trajectory_changed := _trajectory_changed e;
     _period := _period e; _trajectory := _trajectory e |}.

Definition set_time (v : Np.vec F) (e : t) : t :=
  {| _circles := _circles e; _time := v; _x := _x e; _y := _y e;
     _period_changed := _period_changed e;
     _trajectory_changed := _trajectory_changed e;
     _period := _period e; _trajectory := _trajectory e |}.

Definition set_x (v : Np.vec F) (e : t) : t :=
  {| _circles := _circles e; _time := _time e; _x := v; _y := _y e;
     _period_changed := _period_changed e;
     _trajectory_changed := _trajectory_changed e;
     _period := _period e; _trajectory := _trajectory e |}.

Definition set_y (v : Np.vec F) (e : t) : t :=
  {| _circles := _circles e; _time := _time e; _x := _x e; _y := v;
     _period_changed := _period_changed e;
     _trajectory_changed := _trajectory_changed e;
     _period := _period e; _trajectory := _trajectory e |}.

Definition set_period_changed (b : bool) (e : t) : t :=
  {| _circles := _circles e; _time := _time e; _x := _x e; _y := _y e;
     _period_changed := b;
     _trajectory_changed := _trajectory_changed e;
     _period := _period e; _trajectory := _trajectory e |}.

Definition set_trajectory_changed (b : bool) (e : t) : t :=
  {| _circles := _circles e; _time := _time e; _x := _x e; _y := _y e;
     _period_changed := _period_changed e;
     _trajectory_changed := b;
     _period := _period e; _trajectory := _trajectory e |}.

Definition set_period (p : F) (e : t) : t :=
  {| _circles := _circles e; _time := _time e; _x := _x e; _y := _y e;
     _period_changed := _period_changed e;
     _trajectory_changed := _trajectory_changed e;
     _period := p; _trajectory := _trajectory e |}.

Definition set_trajectory (a : Np.ndarray F) (e : t) : t :=
  {| _circles := _circles e; _time := _time e; _x := _x e; _y := _y e;
     _period_changed := _period_changed e;
     _trajectory_changed := _trajectory_changed e;
     _period := _period e; _trajectory := a |}.

Definition __init__ : t :=
  {| _circles := [];
     _time := Np.empty0;
     _x := Np.empty0;
     _y := Np.empty0;
     _period_changed := true;
     _trajectory_changed := true;
     _period := fzero;
     _trajectory := Np.Arr1 Np.empty0 |}.

Definition _update_xy : M t unit :=
  modify (fun self => set_x (Np.zeros_like (_time self)) self) ;;
  modify (fun self => set_y (Np.zeros_like (_time self)) self) ;;
  self <- get ;;
  for_each (_circles self) (fun circle =>
    self <- get ;;
    x <- lift (Np.iadd (_x self) (Circle._local_x circle)) ;;
    modify (set_x x) ;;
    self <- get ;;
    y <- lift (Np.iadd (_y self) (Circle._local_y circle)) ;;
    modify (set_y y)) ;;
  modify (set_trajectory_changed true).

(** [time] getter *)
Definition time : M t (Np.vec F) := self <- get ;; ret (_time self).

(** [time] setter: [def time(self, value)] *)
Definition time_set (value : pyobj F) : M t unit :=
  match as_rank1 value with
  | Some value =>
      (* [value.astype(np.float64)] is a fresh float64 copy of the items *)
      converted <- lift (Np.astype_float64 value) ;;
      modify (set_time converted) ;;
      modify (fun self => set_x (Np.zeros_like (_time self)) self) ;;
      modify (fun self => set_y (Np.zeros_like (_time self)) self) ;;
      (fun self =>
         let (r, circles) :=
           for_each_object
             (Circle.update_arrays (PyNdarray (Np.Arr1 (_time self))))
             (_circles self) in
         (r, set_circles circles self)) ;;
      _update_xy
  | None => raise ValueError
  end.

Definition time_setter : pymethod F t :=
  {| params := 2;
     body := fun args =>
       match args with
       | [value] => time_set value
       | _ => raise TypeError
       end |}.

(** [trajectory] getter *)
Definition trajectory : M t (Np.ndarray F) :=
  self <- get ;;
  (if _trajectory_changed self then
     a <- lift (Np.stack [_x self; _y self;
                          Np.zeros_like (_time self);
                          Np.ones_like (_time self)]) ;;
     modify (set_trajectory a) ;;
     modify (set_trajectory_changed false)
   else ret tt) ;;
  self <- get ;;
  ret (_trajectory self).

(** [trajectory] setter: [def trajectory(self) -> None], one parameter *)
Definition trajectory_setter : pymethod F t :=
  {| params := 1; body := fun _ => raise AttributeError |}.

Definition add_circle (radius speed angle_i : F) : M t unit :=
  modify (fun self =>
    set_circles
      (_circles self
       ++ [Circle.__init__ radius speed angle_i (Some (_time self))])
      self) ;;
  modify (set_period_changed true) ;;
  modify (set_trajectory_changed true).

Definition add_circles (radius speed angle_i : list F) : M t unit :=
  (* [len(radius) != len(speed) != len(angle_i)] is the chained
     comparison [len(radius) != len(speed) and len(speed) != len(angle_i)] *)
  if negb (Nat.eqb (length radius) (length speed))
     && negb (Nat.eqb (length speed) (length angle_i))
  then raise ValueError
  else
    for_each (seq 0 (length radius)) (fun i =>
      r <- lift (getitem radius i) ;;
      s <- lift (getitem speed i) ;;
      a <- lift (getitem angle_i i) ;;
      add_circle r s a) ;;
    _update_xy.

(** [period] getter *)
Definition period : M t F :=
  self <- get ;;
  (if _period_changed self then
     let speeds := map Circle.speed (_circles self) in
     ints <- lift (Np.array_int speeds) ;;
     l <- lift (Np.lcm_reduce ints) ;;
     modify (set_period (fdiv (fmul (of_int 2) fpi) (of_int l))) ;;
     modify (set_period_changed false)
   else ret tt) ;;
  self <- get ;;
  ret (_period self).

End Epicycle.

Arguments t : clear implicits.
End Epicycle.

(** * Vocabulary of the properties *)

Section Vocabulary.
Context {F : Type} `{Float64 F}.

(** The float64 sum of a sequence, accumulated from [0.0] left to right,
    which is the order of the aggregation loop. *)
Definition fsum (l : list F) : F := fold_left fadd l fzero.

(** The loop [for a in ls: acc += a] when no step raises. *)
Definition accumulate (acc : Np.vec F) (ls : list (Np.vec F)) : Np.vec F :=
  fold_left (Np.zip_with fadd) ls acc.

(** The formulas of the data model, for one circle and one sample [t]. *)
Definition angle_at (c : Circle.t F) (t : F) : F :=
  fadd (fmul t (Circle.speed c)) (Circle.angle_i c).

Definition x_at (c : Circle.t F) (t : F) : F :=
  fmul (Circle.radius c) (fcos (angle_at c t)).

Definition y_at (c : Circle.t F) (t : F) : F :=
  fmul (Circle.radius c) (fsin (angle_at c t)).

(** The circle [c] with its three derived arrays recomputed over [ts]. *)
Definition refreshed (ts : Np.vec F) (c : Circle.t F) : Circle.t F :=
  {| Circle.radius := Circle.radius c;
     Circle.speed := Circle.speed c;
     Circle.angle_i := Circle.angle_i c;
     Circle._angles := map (angle_at c) ts;
     Circle._local_x := map (x_at c) ts;
     Circle._local_y := map (y_at c) ts |}.

(** The body of the loop of [_update_xy]. *)
Definition add_local (circle : Circle.t F) : M (Epicycle.t F) unit :=
  self <- get ;;
  x <- lift (Np.iadd (Epicycle._x self) (Circle._local_x circle)) ;;
  modify (Epicycle.set_x x) ;;
  self <- get ;;
  y <- lift (Np.iadd (Epicycle._y self) (Circle._local_y circle)) ;;
  modify (Epicycle.set_y y).

(** What the aggregation pass never touches. *)
Definition same_frame (e e' : Epicycle.t F) : Prop :=
  Epicycle._circles e' = Epicycle._circles e
  /\ Epicycle._time e' = Epicycle._time e
  /\ Epicycle._period_changed e' = Epicycle._period_changed e
  /\ Epicycle._period e' = Epicycle._period e
  /\ Epicycle._trajectory e' = Epicycle._trajectory e.

(** What [self.time = value] will store: the float64 copy of a rank-one
    array, or the exception of the guard or of the conversion. *)
Definition time_of (value : pyobj F) : result (Np.vec F) :=
  match as_rank1 value with
  | Some a => Np.astype_float64 a
  | None => Raise ValueError
  end.

(** The state a successful [self.time = ts] leaves. *)
Definition time_assigned (ts : Np.vec F) (e : Epicycle.t F) : Epicycle.t F :=
  let circles := map (refreshed ts) (Epicycle._circles e) in
  {| Epicycle._circles := circles;
     Epicycle._time := ts;
     Epicycle._x :=
       accumulate (Np.zeros_like ts) (map Circle._local_x circles);
     Epicycle._y :=
       accumulate (Np.zeros_like ts) (map Circle._local_y circles);
     Epicycle._period_changed := Epicycle._period_changed e;
     Epicycle._trajectory_changed := true;
     Epicycle._period := Epicycle._period e;
     Epicycle._trajectory := Epicycle._trajectory e |}.

(** The loop of [add_circles]. *)
Definition add_each (radius speed angle_i : list F) : M (Epicycle.t F) unit :=
  for_each (seq 0 (length radius)) (fun i =>
    r <- lift (getitem radius i) ;;
    s <- lift (getitem speed i) ;;
    a <- lift (getitem angle_i i) ;;
    Epicycle.add_circle r s a).

(** The circle built at round [i] of the loop of [add_circles]. *)
Definition fresh_circle (radius speed angle_i : list F) (time : Np.vec F)
  (i : nat) : Circle.t F :=
  Circle.__init__ (nth i radius fzero) (nth i speed fzero)
    (nth i angle_i fzero) (Some time).

(** What a caller can do with an Epicycle. *)
Inductive op : Type :=
| TimeSet (value : pyobj F)                  (* e.time = value *)
| TimeGet                                    (* e.time *)
| TrajectoryGet                              (* e.trajectory *)
| TrajectorySet (value : pyobj F)            (* e.trajectory = value *)
| AddCircle (radius speed angle_i : F)
| AddCircles (radius speed angle_i : list F)
| PeriodGet                                  (* e.period *).

(** The state after one operation, whether it returned or raised. *)
Definition exec (o : op) (e : Epicycle.t F) : Epicycle.t F :=
  match o with
  | TimeSet value => snd (set_property Epicycle.time_setter value e)
  | TimeGet => snd (Epicycle.time e)
  | TrajectoryGet => snd (Epicycle.trajectory e)
  | TrajectorySet value => snd (set_property Epicycle.trajectory_setter value e)
  | AddCircle r s a => snd (Epicycle.add_circle r s a e)
  | AddCircles r s a => snd (Epicycle.add_circles r s a e)
  | PeriodGet => snd (Epicycle.period e)
  end.

Inductive reachable : Epicycle.t F -> Prop :=
| reachable_init : reachable Epicycle.__init__
| reachable_exec (o : op) (e : Epicycle.t F) :
    reachable e -> reachable (exec o e).

(** The value [period] computes from the speeds when its cache is dirty. *)
Definition period_of (speeds : list F) : result F :=
  match Np.array_int speeds with
  | Ok ints =>
      match Np.lcm_reduce ints with
      | Ok l => Ok (fdiv (fmul (of_int 2) fpi) (of_int l))
      | Raise ex => Raise ex
      end
  | Raise ex => Raise ex
  end.

(** A clean period cache holds the value of the current circles. *)
Definition period_cache_ok (e : Epicycle.t F) : Prop :=
  Epicycle._period_changed e = false ->
  period_of (map Circle.speed (Epicycle._circles e)) = Ok (Epicycle._period e).

End Vocabulary.

Arguments op : clear implicits.

(** The least common multiple of a list of integers: the least
    non-negative integer every item divides. *)
Definition lcm_list (zs : list Z) : Z := fold_right Z.lcm 1%Z zs.

(** ** Vocabulary of the further properties *)

Section Vocabulary2.
Context {F : Type} `{Float64 F}.

(** The state after a sequence of operations. *)
Definition exec_all (l : list (op F)) (e : Epicycle.t F) : Epicycle.t F :=
  fold_left (fun e o => exec o e) l e.

(** An assignment [e.time = value] that will succeed. *)
Definition assigns_time (o : op F) : bool :=
  match o with
  | TimeSet value =>
      match time_of value with Ok _ => true | Raise _ => false end
  | _ => false
  end.

(** A call of [add_circle] or [add_circles]. *)
Definition adds_circles (o : op F) : bool :=
  match o with
  | AddCircle _ _ _ => true
  | AddCircles _ _ _ => true
  | _ => false
  end.

(** A circle after successive calls [update_arrays(v)], for [v] in [vs],
    whether they return or raise. *)
Definition updates (vs : list (pyobj F)) (c : Circle.t F) : Circle.t F :=
  fold_left (fun c v => snd (Circle.update_arrays v c)) vs c.

(** The three constructor parameters of a circle. *)
Definition circle_params (c : Circle.t F) : F * F * F :=
  (Circle.radius c, Circle.speed c, Circle.angle_i c).

(** [e] has the time domain and the combined arrays of [b], the circles
    of [b] followed by circles whose local arrays are empty, and a
    trajectory cache that is dirty or holds the stack of the combined
    arrays of [b]. *)
Definition settled (b e : Epicycle.t F) : Prop :=
  Epicycle._time e = Epicycle._time b
  /\ Epicycle._x e = Epicycle._x b
  /\ Epicycle._y e = Epicycle._y b
  /\ (exists extra,
        Epicycle._circles e = Epicycle._circles b ++ extra
        /\ Forall (fun c => Circle._local_x c = [] /\ Circle._local_y c = [])
             extra)
  /\ (Epicycle._trajectory_changed e = false ->
      Epicycle._trajectory e
      = Np.Arr2 [Epicycle._x b; Epicycle._y b;
                 Np.zeros_like (Epicycle._time b);
                 Np.ones_like (Epicycle._time b)]).

(** [a.flatten("F")] of a rank-two array: column-major order, column [j]
    being the items [j] of the rows; of a rank-one array, a copy. *)
Fixpoint columns (n : nat) (rows : list (Np.vec F)) : list (Np.vec F) :=
  match n with
  | O => []
  | S n' =>
      map (fun r => hd fzero r) rows :: columns n' (map (@tl F) rows)
  end.

Definition flatten_F (a : Np.ndarray F) : Np.vec F :=
  match a with
  | Np.Arr1 v => v
  | Np.Arr2 rows => concat (columns (length (hd [] rows)) rows)
  end.

End Vocabulary2.

(** * Properties *)

(** ** Array arithmetic *)

Section ArrayFacts.
Context {F : Type} `{Float64 F}.

Lemma zip_with_length (f : F -> F -> F) (x y : Np.vec F) :
  length y = length x -> length (Np.zip_with f x y) = length x.
Proof.
  revert y; induction x as [|a x IH]; intros [|b y] E; simpl in *;
    try discriminate; auto.
Qed.

Lemma zip_with_map (A : Type) (f : F -> F -> F) (g h : A -> F) (l : list A) :
  Np.zip_with f (map g l) (map h l) = map (fun a => f (g a) (h a)) l.
Proof. induction l as [|a l IH]; simpl; [reflexivity | now rewrite IH]. Qed.


Lemma iadd_same_length (x y : Np.vec F) :
  length y = length x -> Np.iadd x y = Ok (Np.zip_with fadd x y).
Proof.
  intros E; unfold Np.iadd.
  now rewrite (proj2 (Nat.eqb_eq _ _) E).
Qed.

(** Adding an empty array to a non-empty one is a shape error. *)
Lemma iadd_empty (x : Np.vec F) :
  x <> [] -> Np.iadd x [] = Raise ValueError.
Proof. destruct x; [congruence | reflexivity]. Qed.

(** [x += y] never resizes [x]. *)
Lemma iadd_length (x y z : Np.vec F) :
  Np.iadd x y = Ok z -> length z = length x.
Proof.
  unfold Np.iadd.
  destruct (Nat.eqb_spec (length y) (length x)) as [E|NE].
  - intros [= <-]; now apply zip_with_length.
  - destruct y as [|b [|c y]]; try discriminate.
    intros [= <-]; apply length_map.
Qed.

Lemma accumulate_length (ls : list (Np.vec F)) (acc : Np.vec F) :
  Forall (fun l => length l = length acc) ls ->
  length (accumulate acc ls) = length acc.
Proof.
  unfold accumulate; revert acc.
  induction ls as [|l ls IH]; intros acc HF; simpl; [reflexivity|].
  inversion HF as [|? ? E HF']; subst.
  rewrite IH.
  - now apply zip_with_length.
  - rewrite zip_with_length by assumption; assumption.
Qed.


(** The same for arrays given sample by sample. *)
Lemma accumulate_map (A : Type) (ts : list A) (fs : list (A -> F)) (g : A -> F) :
  accumulate (map g ts) (map (fun f => map f ts) fs)
  = map (fun t => fold_left fadd (map (fun f => f t) fs) (g t)) ts.
Proof.
  unfold accumulate; revert g.
  induction fs as [|f fs IH]; intros g; simpl; [reflexivity|].
  now rewrite zip_with_map, IH.
Qed.

Lemma zeros_like_length (a : Np.vec F) : length (Np.zeros_like a) = length a.
Proof. apply length_map. Qed.

Lemma ones_like_length (a : Np.vec F) : length (Np.ones_like a) = length a.
Proof. apply length_map. Qed.


Lemma stack4 (x y z o : Np.vec F) :
  length y = length x -> length z = length x -> length o = length x ->
  Np.stack [x; y; z; o] = Ok (Np.Arr2 [x; y; z; o]).
Proof.
  intros Ey Ez Eo; unfold Np.stack; simpl.
  now rewrite Ey, Ez, Eo, Nat.eqb_refl.
Qed.

End ArrayFacts.

(** ** Circle *)

Section CircleFacts.
Context {F : Type} `{Float64 F}.

Lemma update_arrays_rank1 (ts : Np.vec F) (c : Circle.t F) :
  Circle.update_arrays (PyNdarray (Np.Arr1 ts)) c = (Ok tt, refreshed ts c).
Proof.
  unfold Circle.update_arrays, bind, get, put; simpl.
  unfold refreshed, Circle.set_local_y, Circle.set_local_x, Circle.set_angles;
    simpl.
  unfold Np.scalar_mul, Np.cos, Np.sin, Np.add_scalar, Np.mul_scalar.
  now rewrite !map_map.
Qed.

Lemma for_each_object_update (ts : Np.vec F) (cs : list (Circle.t F)) :
  for_each_object (Circle.update_arrays (PyNdarray (Np.Arr1 ts))) cs
  = (Ok tt, map (refreshed ts) cs).
Proof.
  induction cs as [|c cs IH]; cbn [for_each_object map]; [reflexivity|].
  now rewrite update_arrays_rank1, IH.
Qed.

(** [update_arrays] on a rank-one array of dtype object. *)
Lemma update_arrays_object (items : list (option F)) (c : Circle.t F) :
  Circle.update_arrays (PyObjectArray items) c
  = match Np.all_floats items with
    | None => (Raise TypeError, c)
    | Some [] =>
        (Ok tt,
         Circle.set_local_y [] (Circle.set_local_x [] (Circle.set_angles [] c)))
    | Some ts =>
        (Raise TypeError,
         Circle.set_angles
           (map (fun t => fadd (fmul t (Circle.speed c)) (Circle.angle_i c))
              ts)
           c)
    end.
Proof.
  unfold Circle.update_arrays; cbn [as_rank1].
  unfold bind, get, put, lift, Np.mul_float.
  destruct (Np.all_floats items) as [[|t ts]|]; try reflexivity.
  unfold Np.add_scalar, Np.mul_scalar; cbn [fst snd Np.cos_of map].
  now rewrite map_map.
Qed.

Lemma refreshed_speeds (ts : Np.vec F) (cs : list (Circle.t F)) :
  map Circle.speed (map (refreshed ts) cs) = map Circle.speed cs.
Proof. now rewrite map_map. Qed.

(** C7, amended. [update_arrays(time)] on a rank-one numeric array of [N]
    samples leaves [radius], [speed] and [angle_i] as they are and sets,
    sample by sample, [angles = t * speed + angle_i], [local_x = radius *
    cos(angles)] and [local_y = radius * sin(angles)].  On a value that
    is not a rank-one array ([None], a float, a list, an array of rank
    two) it raises [ValueError] and the circle is unchanged.  A rank-one
    array of another dtype passes the test of the class and the rank and
    raises [TypeError] instead: a str array and an object array holding
    [None] in the product by [speed], with the circle unchanged; an
    object array of floats in [np.cos], after [angles] has been
    assigned; the empty object array raises nothing and leaves three
    empty arrays. *)
Theorem update_arrays_spec (time : pyobj F) (c : Circle.t F) :
  Circle.update_arrays time c
  = match time with
    | PyNdarray (Np.Arr1 ts) =>
        (Ok tt,
         {| Circle.radius := Circle.radius c;
            Circle.speed := Circle.speed c;
            Circle.angle_i := Circle.angle_i c;
            Circle._angles :=
              map (fun t => fadd (fmul t (Circle.speed c)) (Circle.angle_i c))
                ts;
            Circle._local_x :=
              map (fun t =>
                     fmul (Circle.radius c)
                       (fcos (fadd (fmul t (Circle.speed c))
                                (Circle.angle_i c))))
                ts;
            Circle._local_y :=
              map (fun t =>
                     fmul (Circle.radius c)
                       (fsin (fadd (fmul t (Circle.speed c))
                                (Circle.angle_i c))))
                ts |})
    | PyStrArray _ => (Raise TypeError, c)
    | PyObjectArray items =>
        match Np.all_floats items with
        | None => (Raise TypeError, c)
        | Some [] =>
            (Ok tt,
             {| Circle.radius := Circle.radius c;
                Circle.speed := Circle.speed c;
                Circle.angle_i := Circle.angle_i c;
                Circle._angles := [];
                Circle._local_x := [];
                Circle._local_y := [] |})
        | Some ts =>
            (Raise TypeError,
             {| Circle.radius := Circle.radius c;
                Circle.speed := Circle.speed c;
                Circle.angle_i := Circle.angle_i c;
                Circle._angles :=
                  map (fun t =>
                         fadd (fmul t (Circle.speed c)) (Circle.angle_i c))
                    ts;
                Circle._local_x := Circle._local_x c;
                Circle._local_y := Circle._local_y c |})
        end
    | _ => (Raise ValueError, c)
    end.
Proof.
  destruct time as [| x | l | [ts | rows] | items | items];
    try reflexivity.
  - apply update_arrays_rank1.
  - apply update_arrays_object.
Qed.

End CircleFacts.

(** ** Epicycle: the aggregation pass *)

Ltac unfold_monad :=
  unfold bind, ret, raise, get, put, modify, lift in *.

Lemma for_each_cons (S A : Type) (body : A -> M S unit) (a : A) (l : list A)
  (s : S) :
  for_each (a :: l) body s
  = match body a s with
    | (Ok _, s') => for_each l body s'
    | (Raise e, s') => (Raise e, s')
    end.
Proof. reflexivity. Qed.

Section AggregationFacts.
Context {F : Type} `{Float64 F}.

Lemma update_xy_unfold (e : Epicycle.t F) :
  Epicycle._update_xy e
  = (let e0 :=
       Epicycle.set_y (Np.zeros_like (Epicycle._time e))
         (Epicycle.set_x (Np.zeros_like (Epicycle._time e)) e) in
     match for_each (Epicycle._circles e) add_local e0 with
     | (Ok _, e1) => (Ok tt, Epicycle.set_trajectory_changed true e1)
     | (Raise ex, e1) => (Raise ex, e1)
     end).
Proof. reflexivity. Qed.

Lemma same_frame_refl (e : Epicycle.t F) : same_frame e e.
Proof. repeat split. Qed.

Lemma same_frame_trans (e1 e2 e3 : Epicycle.t F) :
  same_frame e1 e2 -> same_frame e2 e3 -> same_frame e1 e3.
Proof.
  unfold same_frame; intros (A1 & A2 & A3 & A4 & A5) (B1 & B2 & B3 & B4 & B5).
  repeat split; congruence.
Qed.

Lemma add_local_frame (c : Circle.t F) (e : Epicycle.t F) :
  same_frame e (snd (add_local c e))
  /\ length (Epicycle._x (snd (add_local c e))) = length (Epicycle._x e)
  /\ length (Epicycle._y (snd (add_local c e))) = length (Epicycle._y e).
Proof.
  unfold add_local; unfold_monad; cbn.
  destruct (Np.iadd (Epicycle._x e) (Circle._local_x c)) as [x|ex] eqn:Ex; cbn.
  - destruct (Np.iadd (Epicycle._y e) (Circle._local_y c)) as [y|ey] eqn:Ey;
      cbn; repeat split;
      eauto using iadd_length.
  - repeat split.
Qed.

Lemma add_local_loop_frame (cs : list (Circle.t F)) (e : Epicycle.t F) :
  same_frame e (snd (for_each cs add_local e))
  /\ length (Epicycle._x (snd (for_each cs add_local e)))
     = length (Epicycle._x e)
  /\ length (Epicycle._y (snd (for_each cs add_local e)))
     = length (Epicycle._y e).
Proof.
  revert e; induction cs as [|c cs IH]; intros e.
  - cbn; repeat split.
  - rewrite for_each_cons.
    destruct (add_local_frame c e) as (Fr & Lx & Ly).
    destruct (add_local c e) as [[[]|ex] e1]; cbn [snd] in *.
    + destruct (IH e1) as (Fr' & Lx' & Ly').
      split; [eapply same_frame_trans; eassumption|].
      split; [now rewrite Lx' | now rewrite Ly'].
    + auto.
Qed.

Lemma update_xy_frame (e : Epicycle.t F) :
  same_frame e (snd (Epicycle._update_xy e))
  /\ length (Epicycle._x (snd (Epicycle._update_xy e)))
     = length (Epicycle._time e)
  /\ length (Epicycle._y (snd (Epicycle._update_xy e)))
     = length (Epicycle._time e).
Proof.
  rewrite update_xy_unfold; cbv zeta.
  set (e0 := Epicycle.set_y _ _).
  destruct (add_local_loop_frame (Epicycle._circles e) e0) as (Fr & Lx & Ly).
  assert (Fr0 : same_frame e e0) by (repeat split).
  assert (Lx0 : length (Epicycle._x e0) = length (Epicycle._time e))
    by apply zeros_like_length.
  assert (Ly0 : length (Epicycle._y e0) = length (Epicycle._time e))
    by apply zeros_like_length.
  destruct (for_each (Epicycle._circles e) add_local e0) as [[[]|ex] e1];
    cbn [snd] in *.
  - split; [|split; cbn; congruence].
    eapply same_frame_trans; [exact Fr0|].
    destruct Fr as (A1 & A2 & A3 & A4 & A5); repeat split; cbn; assumption.
  - split; [eapply same_frame_trans; eassumption|split; congruence].
Qed.

(** The loop when every local array has the length of the accumulators. *)
Lemma add_local_loop_ok (cs : list (Circle.t F)) (e : Epicycle.t F) :
  Forall (fun c => length (Circle._local_x c) = length (Epicycle._x e)
                   /\ length (Circle._local_y c) = length (Epicycle._y e)) cs ->
  for_each cs add_local e
  = (Ok tt,
     Epicycle.set_y (accumulate (Epicycle._y e) (map Circle._local_y cs))
       (Epicycle.set_x (accumulate (Epicycle._x e) (map Circle._local_x cs))
          e)).
Proof.
  revert e; induction cs as [|c cs IH]; intros e HF.
  - destruct e; reflexivity.
  - inversion HF as [|? ? [Ex Ey] HF']; subst.
    rewrite for_each_cons.
    unfold add_local at 1; unfold_monad; cbn.
    rewrite (iadd_same_length _ _ Ex); cbn.
    rewrite (iadd_same_length _ _ Ey); cbn.
    rewrite IH.
    + destruct e; reflexivity.
    + cbn. rewrite !zip_with_length by assumption. exact HF'.
Qed.

Lemma update_xy_ok (e : Epicycle.t F) :
  Forall (fun c =>
            length (Circle._local_x c) = length (Epicycle._time e)
            /\ length (Circle._local_y c) = length (Epicycle._time e))
    (Epicycle._circles e) ->
  Epicycle._update_xy e
  = (Ok tt,
     Epicycle.set_trajectory_changed true
       (Epicycle.set_y
          (accumulate (Np.zeros_like (Epicycle._time e))
             (map Circle._local_y (Epicycle._circles e)))
          (Epicycle.set_x
             (accumulate (Np.zeros_like (Epicycle._time e))
                (map Circle._local_x (Epicycle._circles e)))
             e))).
Proof.
  intros HF; rewrite update_xy_unfold; cbv zeta.
  rewrite add_local_loop_ok.
  - destruct e; reflexivity.
  - cbn. rewrite !zeros_like_length. exact HF.
Qed.

End AggregationFacts.

(** ** Epicycle: the time domain and the trajectory *)

Section TrajectoryFacts.
Context {F : Type} `{Float64 F}.

Lemma refreshed_lengths (ts : Np.vec F) (cs : list (Circle.t F)) :
  Forall (fun c => length (Circle._local_x c) = length ts
                   /\ length (Circle._local_y c) = length ts)
    (map (refreshed ts) cs).
Proof.
  apply Forall_forall; intros c Hc.
  apply in_map_iff in Hc as (c0 & <- & _); cbn.
  now rewrite !length_map.
Qed.

Lemma time_set_rank1 (ts : Np.vec F) (e : Epicycle.t F) :
  Epicycle.time_set (PyNdarray (Np.Arr1 ts)) e = (Ok tt, time_assigned ts e).
Proof.
  unfold Epicycle.time_set; cbn [as_rank1 Np.ndim Nat.eqb].
  unfold bind at 1, lift at 1; cbn [Np.astype_float64].
  unfold bind at 1, modify at 1.
  unfold bind at 1, modify at 1.
  unfold bind at 1, modify at 1.
  unfold bind at 1.
  cbn [Epicycle._time Epicycle._circles Epicycle.set_time Epicycle.set_x
         Epicycle.set_y].
  rewrite for_each_object_update.
  rewrite update_xy_ok.
  - reflexivity.
  - cbn. apply refreshed_lengths.
Qed.

Lemma time_set_other (value : pyobj F) (e : Epicycle.t F) :
  as_rank1 value = None ->
  Epicycle.time_set value e = (Raise ValueError, e).
Proof. intros E; unfold Epicycle.time_set; now rewrite E. Qed.

Lemma time_set_by_outcome (value : pyobj F) (e : Epicycle.t F) :
  Epicycle.time_set value e
  = match time_of value with
    | Ok ts => (Ok tt, time_assigned ts e)
    | Raise ex => (Raise ex, e)
    end.
Proof.
  unfold time_of.
  destruct (as_rank1 value) as [a|] eqn:Ea; [|now apply time_set_other].
  destruct (Np.astype_float64 a) as [ts|ex] eqn:Et.
  - rewrite <- (time_set_rank1 ts e).
    unfold Epicycle.time_set; rewrite Ea; cbn [as_rank1 Np.ndim Nat.eqb].
    unfold bind at 1, lift at 1; rewrite Et.
    unfold bind at 5, lift at 1; cbn [Np.astype_float64].
    reflexivity.
  - unfold Epicycle.time_set; rewrite Ea.
    unfold bind at 1, lift at 1; now rewrite Et.
Qed.

Lemma vec_by_index (l : Np.vec F) (d : F) :
  l = map (fun i => nth i l d) (seq 0 (length l)).
Proof.
  apply (nth_ext _ _ d d).
  - now rewrite length_map, length_seq.
  - intros n Hn.
    rewrite (nth_indep (map (fun i => nth i l d) (seq 0 (length l))) d
               ((fun i => nth i l d) 0%nat))
      by now rewrite length_map, length_seq.
    rewrite (map_nth (fun i => nth i l d)), seq_nth by assumption.
    reflexivity.
Qed.

(** The aggregated array, sample by sample. *)
Lemma aggregate_refreshed (ts : Np.vec F) (cs : list (Circle.t F))
  (proj : Circle.t F -> Np.vec F) (at_ : Circle.t F -> F -> F) :
  (forall c, proj (refreshed ts c) = map (at_ c) ts) ->
  accumulate (Np.zeros_like ts) (map proj (map (refreshed ts) cs))
  = map (fun t => fsum (map (fun c => at_ c t) cs)) ts.
Proof.
  intros Hp.
  replace (map proj (map (refreshed ts) cs))
    with (map (fun f => map f ts) (map at_ cs)).
  - unfold Np.zeros_like; rewrite accumulate_map.
    apply map_ext; intros t; unfold fsum; now rewrite map_map.
  - rewrite !map_map; apply map_ext; intros c; now rewrite Hp.
Qed.


End TrajectoryFacts.

Section TrajectoryClaims.
Context {F : Type} `{Float64 F}.

Lemma time_setter_call (value : pyobj F) (e : Epicycle.t F) :
  set_property Epicycle.time_setter value e = Epicycle.time_set value e.
Proof. reflexivity. Qed.

(** A read of [trajectory] with the dirty flag set restacks the combined
    arrays. *)
Lemma trajectory_recompute (e : Epicycle.t F) :
  Epicycle._trajectory_changed e = true ->
  length (Epicycle._x e) = length (Epicycle._time e) ->
  length (Epicycle._y e) = length (Epicycle._time e) ->
  let a := Np.Arr2 [Epicycle._x e; Epicycle._y e;
                    Np.zeros_like (Epicycle._time e);
                    Np.ones_like (Epicycle._time e)] in
  Epicycle.trajectory e
  = (Ok a,
     Epicycle.set_trajectory_changed false (Epicycle.set_trajectory a e)).
Proof.
  intros Hc Lx Ly a.
  unfold Epicycle.trajectory; unfold_monad; rewrite Hc.
  rewrite stack4;
    [reflexivity | congruence
    | rewrite zeros_like_length; congruence
    | rewrite ones_like_length; congruence].
Qed.

Lemma time_assigned_lengths (ts : Np.vec F) (e : Epicycle.t F) :
  length (Epicycle._x (time_assigned ts e)) = length ts
  /\ length (Epicycle._y (time_assigned ts e)) = length ts.
Proof.
  cbn; split;
    (rewrite accumulate_length; [apply zeros_like_length|]);
    rewrite zeros_like_length, map_map; apply Forall_forall;
    intros l Hl; apply in_map_iff in Hl as (c & <- & _); cbn;
    apply length_map.
Qed.

(** C1. Whatever circles the Epicycle owns, once a time domain [ts] of
    [N] samples is assigned the trajectory read next is a 4 x N matrix:
    row 0 holds, for every sample [t], the sum over the circles of
    [radius * cos(t * speed + angle_i)], row 1 the same sum with [sin],
    row 2 is constant 0 and row 3 constant 1. *)
Theorem trajectory_after_time_assignment (e : Epicycle.t F) (ts : Np.vec F) :
  exists (e1 e2 : Epicycle.t F) (traj : Np.ndarray F),
    set_property Epicycle.time_setter (PyNdarray (Np.Arr1 ts)) e = (Ok tt, e1)
    /\ Epicycle.trajectory e1 = (Ok traj, e2)
    /\ Np.shape traj = [4; length ts]
    /\ Np.row traj 0
       = Some (map (fun t =>
                      fsum (map (fun c =>
                                   fmul (Circle.radius c)
                                     (fcos (fadd (fmul t (Circle.speed c))
                                              (Circle.angle_i c))))
                              (Epicycle._circles e)))
                 ts)
    /\ Np.row traj 1
       = Some (map (fun t =>
                      fsum (map (fun c =>
                                   fmul (Circle.radius c)
                                     (fsin (fadd (fmul t (Circle.speed c))
                                              (Circle.angle_i c))))
                              (Epicycle._circles e)))
                 ts)
    /\ Np.row traj 2 = Some (map (fun _ => fzero) ts)
    /\ Np.row traj 3 = Some (map (fun _ => fone) ts).
Proof.
  destruct (time_assigned_lengths ts e) as [Lx Ly].
  eexists; eexists; eexists.
  split; [rewrite time_setter_call; apply time_set_rank1|].
  split; [apply trajectory_recompute; [reflexivity | exact Lx | exact Ly]|].
  cbn [Np.shape Np.row nth_error length hd time_assigned Epicycle._x
         Epicycle._y Epicycle._time Epicycle._circles].
  rewrite (aggregate_refreshed ts (Epicycle._circles e) Circle._local_x x_at)
    by reflexivity.
  rewrite (aggregate_refreshed ts (Epicycle._circles e) Circle._local_y y_at)
    by reflexivity.
  rewrite length_map.
  repeat split.
Qed.



End TrajectoryClaims.

(** ** Epicycle: cached reads and read-only fields *)

Section ReadClaims.
Context {F : Type} `{Float64 F}.

Lemma trajectory_unfold (e : Epicycle.t F) :
  Epicycle.trajectory e
  = if Epicycle._trajectory_changed e then
      match Np.stack [Epicycle._x e; Epicycle._y e;
                      Np.zeros_like (Epicycle._time e);
                      Np.ones_like (Epicycle._time e)] with
      | Ok a =>
          (Ok a,
           Epicycle.set_trajectory_changed false (Epicycle.set_trajectory a e))
      | Raise ex => (Raise ex, e)
      end
    else (Ok (Epicycle._trajectory e), e).
Proof.
  unfold Epicycle.trajectory; unfold_monad.
  destruct (Epicycle._trajectory_changed e);
    [destruct (Np.stack _)|]; reflexivity.
Qed.

Lemma period_unfold (e : Epicycle.t F) :
  Epicycle.period e
  = if Epicycle._period_changed e then
      match Np.array_int (map Circle.speed (Epicycle._circles e)) with
      | Ok ints =>
          match Np.lcm_reduce ints with
          | Ok l =>
              let p := fdiv (fmul (of_int 2) fpi) (of_int l) in
              (Ok p, Epicycle.set_period_changed false (Epicycle.set_period p e))
          | Raise ex => (Raise ex, e)
          end
      | Raise ex => (Raise ex, e)
      end
    else (Ok (Epicycle._period e), e).
Proof.
  unfold Epicycle.period; unfold_monad.
  destruct (Epicycle._period_changed e);
    [destruct (Np.array_int _) as [ints|]; [destruct (Np.lcm_reduce ints)|]|];
    reflexivity.
Qed.

Lemma trajectory_reread (e : Epicycle.t F) :
  Epicycle.trajectory (snd (Epicycle.trajectory e)) = Epicycle.trajectory e.
Proof.
  rewrite (trajectory_unfold e).
  destruct (Epicycle._trajectory_changed e) eqn:Hc.
  - destruct (Np.stack _) as [a|ex] eqn:Es; cbn [snd].
    + now rewrite trajectory_unfold.
    + now rewrite trajectory_unfold, Hc, Es.
  - cbn [snd]. now rewrite trajectory_unfold, Hc.
Qed.

Lemma period_reread (e : Epicycle.t F) :
  Epicycle.period (snd (Epicycle.period e)) = Epicycle.period e.
Proof.
  rewrite (period_unfold e).
  destruct (Epicycle._period_changed e) eqn:Hc.
  - destruct (Np.array_int _) as [ints|ex] eqn:Ea.
    + destruct (Np.lcm_reduce ints) as [l|ex] eqn:El; cbn [snd].
      * now rewrite period_unfold.
      * now rewrite period_unfold, Hc, Ea, El.
    + cbn [snd]. now rewrite period_unfold, Hc, Ea.
  - cbn [snd]. now rewrite period_unfold, Hc.
Qed.

(** C8. A second read of [trajectory], or of [period], right after a
    first one gives the same outcome (the same value, or the same
    exception) and leaves the state the first read left. *)
Theorem cached_reads_idempotent (e : Epicycle.t F) :
  (let (r1, e1) := Epicycle.trajectory e in
   Epicycle.trajectory e1 = (r1, e1))
  /\ (let (p1, e1) := Epicycle.period e in
      Epicycle.period e1 = (p1, e1)).
Proof.
  split.
  - pose proof (trajectory_reread e) as E.
    destruct (Epicycle.trajectory e) as [r1 e1]; exact E.
  - pose proof (period_reread e) as E.
    destruct (Epicycle.period e) as [p1 e1]; exact E.
Qed.

(** C9 (what the code does). Assigning to [angles], [local_x] or
    [local_y] of a Circle raises [AttributeError] and changes nothing;
    assigning to [trajectory] of an Epicycle changes nothing either, but
    the exception is [TypeError]: the setter is declared with [self] as
    its only parameter, so the call made by the assignment has one
    argument too many and its body never runs. *)
Theorem readonly_assignments (c : Circle.t F) (e : Epicycle.t F)
  (value : pyobj F) :
  set_property Circle.angles_setter value c = (Raise AttributeError, c)
  /\ set_property Circle.local_x_setter value c = (Raise AttributeError, c)
  /\ set_property Circle.local_y_setter value c = (Raise AttributeError, c)
  /\ set_property Epicycle.trajectory_setter value e = (Raise TypeError, e).
Proof. repeat split. Qed.

End ReadClaims.

(** ** Epicycle: adding circles *)

Section AddFacts.
Context {F : Type} `{Float64 F}.

Lemma add_circles_unfold (radius speed angle_i : list F) (e : Epicycle.t F) :
  Epicycle.add_circles radius speed angle_i e
  = if negb (Nat.eqb (length radius) (length speed))
       && negb (Nat.eqb (length speed) (length angle_i))
    then (Raise ValueError, e)
    else match add_each radius speed angle_i e with
         | (Ok _, e1) => Epicycle._update_xy e1
         | (Raise ex, e1) => (Raise ex, e1)
         end.
Proof.
  unfold Epicycle.add_circles, add_each.
  destruct (negb _ && negb _); reflexivity.
Qed.

(** The state [add_circle] leaves. *)
Lemma add_circle_state (r s a : F) (e : Epicycle.t F) :
  Epicycle.add_circle r s a e
  = (Ok tt,
     {| Epicycle._circles :=
          Epicycle._circles e
          ++ [{| Circle.radius := r; Circle.speed := s; Circle.angle_i := a;
                 Circle._angles := Epicycle._time e;
                 Circle._local_x := [];
                 Circle._local_y := [] |}];
        Epicycle._time := Epicycle._time e;
        Epicycle._x := Epicycle._x e;
        Epicycle._y := Epicycle._y e;
        Epicycle._period_changed := true;
        Epicycle._trajectory_changed := true;
        Epicycle._period := Epicycle._period e;
        Epicycle._trajectory := Epicycle._trajectory e |}).
Proof. reflexivity. Qed.

(** The read of [trajectory] after [add_circle] restacks the combined
    arrays as they were: it does not depend on the circle added. *)
Lemma trajectory_after_add_circle (r s a : F) (e : Epicycle.t F) :
  fst (Epicycle.trajectory (snd (Epicycle.add_circle r s a e)))
  = Np.stack [Epicycle._x e; Epicycle._y e;
              Np.zeros_like (Epicycle._time e);
              Np.ones_like (Epicycle._time e)].
Proof.
  rewrite add_circle_state; cbn [snd].
  rewrite trajectory_unfold;
    cbn [Epicycle._trajectory_changed Epicycle._x Epicycle._y Epicycle._time].
  destruct (Np.stack _) as [arr|ex]; reflexivity.
Qed.

End AddFacts.

Section AddClaims.
Context {F : Type} `{Float64 F}.

(** C4 (what the code does). The guard of [add_circles] is the chained
    comparison [len(radius) != len(speed) != len(angle_i)], which holds
    only when the first two lengths differ and the last two differ.
    With lengths 2, 3, 3 nothing is raised and two circles are added;
    with lengths 2, 2, 1 the loop raises [IndexError] at its second
    round, after the first circle has been appended. *)
Theorem add_circles_mismatch_accepted (r1 r2 s1 s2 s3 a1 a2 a3 : F) :
  (exists e',
     Epicycle.add_circles [r1; r2] [s1; s2; s3] [a1; a2; a3] Epicycle.__init__
     = (Ok tt, e')
     /\ Epicycle._circles e'
        = [Circle.__init__ r1 s1 a1 (Some []);
           Circle.__init__ r2 s2 a2 (Some [])])
  /\ (exists e',
        Epicycle.add_circles [r1; r2] [s1; s2] [a1] Epicycle.__init__
        = (Raise IndexError, e')
        /\ Epicycle._circles e' = [Circle.__init__ r1 s1 a1 (Some [])]).
Proof.
  split.
  - eexists; split; [vm_compute; reflexivity | reflexivity].
  - eexists; split; [vm_compute; reflexivity | reflexivity].
Qed.

(** The guard raises exactly when both neighbouring pairs differ, and
    then nothing has been touched. *)
Lemma add_circles_guard (radius speed angle_i : list F) (e : Epicycle.t F) :
  length radius <> length speed -> length speed <> length angle_i ->
  Epicycle.add_circles radius speed angle_i e = (Raise ValueError, e).
Proof.
  intros H1 H2; rewrite add_circles_unfold.
  apply Nat.eqb_neq in H1, H2; now rewrite H1, H2.
Qed.

End AddClaims.

(** C2 (what the code does), on the reals. After [e.time = [0.0]] and
    [e.add_circle(1.0, 0.0, 0.0)] the trajectory read next has rows
    [[0.0]], [[0.0]], [[0.0]], [[1.0]]: row 0 is 0 although the added
    circle contributes [1 * cos(0 * 0 + 0) = 1] at the only sample. *)
Theorem add_circle_not_reflected :
  let e0 : Epicycle.t R :=
    snd (set_property Epicycle.time_setter (PyNdarray (Np.Arr1 [0%R]))
           Epicycle.__init__) in
  let e1 := snd (Epicycle.add_circle 1%R 0%R 0%R e0) in
  fst (Epicycle.trajectory e1)
  = Ok (Np.Arr2 [[0%R]; [0%R]; [0%R]; [1%R]])
  /\ (fmul 1 (fcos (fadd (fmul 0 0) 0)) <> 0)%R.
Proof.
  intros e0 e1; split.
  - subst e1; rewrite trajectory_after_add_circle.
    subst e0; rewrite time_setter_call, time_set_rank1.
    reflexivity.
  - cbn. rewrite Rmult_0_l, Rplus_0_l, cos_0. lra.
Qed.

(** ** Epicycle: [add_circles] once the time domain is set *)

Section AddAfterTime.
Context {F : Type} `{Float64 F}.

Lemma add_loop_ok (radius speed angle_i : list F) (len : nat) :
  forall (start : nat) (e : Epicycle.t F),
    start + len <= length radius ->
    start + len <= length speed ->
    start + len <= length angle_i ->
    exists e1,
      for_each (seq start len) (fun i =>
        r <- lift (getitem radius i) ;;
        s <- lift (getitem speed i) ;;
        a <- lift (getitem angle_i i) ;;
        Epicycle.add_circle r s a) e = (Ok tt, e1)
      /\ Epicycle._circles e1
         = Epicycle._circles e
           ++ map (fresh_circle radius speed angle_i (Epicycle._time e))
                (seq start len)
      /\ Epicycle._time e1 = Epicycle._time e
      /\ Epicycle._x e1 = Epicycle._x e
      /\ Epicycle._y e1 = Epicycle._y e.
Proof.
  induction len as [|len IH]; intros start e Lr Ls La.
  - exists e; cbn; rewrite app_nil_r; repeat split.
  - cbn [seq]; rewrite for_each_cons.
    unfold bind at 1, lift at 1, getitem at 1.
    rewrite (nth_error_nth' radius fzero) by lia.
    unfold bind at 1, lift at 1, getitem at 1.
    rewrite (nth_error_nth' speed fzero) by lia.
    unfold bind at 1, lift at 1, getitem at 1.
    rewrite (nth_error_nth' angle_i fzero) by lia.
    rewrite add_circle_state.
    match goal with
    | |- context [for_each _ _ ?e'] =>
        destruct (IH (S start) e') as (e1 & E & Hc & Ht & Hx & Hy); try lia
    end.
    exists e1; split; [exact E|].
    cbn in Hc, Ht, Hx, Hy.
    repeat split; try assumption.
    rewrite Hc, <- app_assoc. reflexivity.
Qed.

Lemma iadd_raises (x y : Np.vec F) (ex : exn) :
  Np.iadd x y = Raise ex -> ex = ValueError.
Proof.
  unfold Np.iadd; destruct (Nat.eqb _ _); [discriminate|].
  destruct y as [|b [|c y]]; congruence.
Qed.

Lemma add_local_raises (c : Circle.t F) (e e' : Epicycle.t F) (ex : exn) :
  add_local c e = (Raise ex, e') -> ex = ValueError.
Proof.
  unfold add_local; unfold_monad.
  destruct (Np.iadd (Epicycle._x e) _) as [x|ex1] eqn:Ex; cbn.
  - destruct (Np.iadd (Epicycle._y e) _) as [y|ex2] eqn:Ey; cbn;
      [discriminate|].
    intros [= <- _]; eapply iadd_raises; eassumption.
  - intros [= <- _]; eapply iadd_raises; eassumption.
Qed.

(** The aggregation loop raises as soon as one circle has an empty
    [local_x] while the accumulator is not empty. *)
Lemma add_local_loop_raises (cs : list (Circle.t F)) :
  forall e : Epicycle.t F,
    Epicycle._x e <> [] ->
    Exists (fun c => Circle._local_x c = []) cs ->
    exists e', for_each cs add_local e = (Raise ValueError, e').
Proof.
  induction cs as [|c cs IH]; intros e Hx HE; [inversion HE|].
  rewrite for_each_cons.
  destruct (add_local c e) as [[[]|ex] e1] eqn:E1.
  - inversion HE as [? ? Hc|? ? HE']; subst.
    + exfalso; revert E1; unfold add_local; unfold_monad.
      rewrite Hc, iadd_empty by assumption; discriminate.
    + apply IH; [|assumption].
      destruct (add_local_frame c e) as (_ & Lx & _).
      rewrite E1 in Lx; cbn [snd] in Lx.
      destruct (Epicycle._x e1); [|discriminate].
      destruct (Epicycle._x e); [congruence|discriminate].
  - rewrite (add_local_raises _ _ E1). now exists e1.
Qed.

(** C5. On an Epicycle whose time domain is not empty, [add_circles]
    with three non-empty lists of one length runs its loop to the end
    (every new circle holds the time array as [angles] and empty
    [local_x], [local_y]) and then raises [ValueError] in [_update_xy],
    whose [+=] meets an empty local array. *)
Theorem add_circles_after_time_raises (e : Epicycle.t F)
  (radius speed angle_i : list F) :
  Epicycle._time e <> [] ->
  radius <> [] ->
  length radius = length speed ->
  length speed = length angle_i ->
  exists (e1 e2 : Epicycle.t F) (new : list (Circle.t F)),
    add_each radius speed angle_i e = (Ok tt, e1)
    /\ Epicycle._circles e1 = Epicycle._circles e ++ new
    /\ map Circle.radius new = radius
    /\ map Circle.speed new = speed
    /\ map Circle.angle_i new = angle_i
    /\ Forall (fun c => Circle._angles c = Epicycle._time e
                        /\ Circle._local_x c = []
                        /\ Circle._local_y c = []) new
    /\ Epicycle._update_xy e1 = (Raise ValueError, e2)
    /\ Epicycle.add_circles radius speed angle_i e = (Raise ValueError, e2)
    /\ Epicycle._circles e2 = Epicycle._circles e ++ new.
Proof.
  intros Ht Hr E1 E2.
  destruct (@add_loop_ok radius speed angle_i (length radius) 0 e)
    as (e1 & Eloop & Hc & Ht1 & Hx1 & Hy1); try lia.
  set (new := map (fresh_circle radius speed angle_i (Epicycle._time e))
                (seq 0 (length radius))) in *.
  assert (Hup : exists e2, Epicycle._update_xy e1 = (Raise ValueError, e2)).
  { rewrite update_xy_unfold; cbv zeta.
    match goal with
    | |- context [for_each _ add_local ?e0] =>
        destruct (@add_local_loop_raises (Epicycle._circles e1) e0)
          as (e2 & E)
    end.
    - cbn. rewrite Ht1. destruct (Epicycle._time e); [congruence|discriminate].
    - rewrite Hc; apply Exists_app; right.
      destruct radius as [|r0 radius']; [congruence|].
      subst new; cbn [length seq map]; now left.
    - rewrite E; now exists e2. }
  destruct Hup as (e2 & Hup).
  exists e1, e2, new.
  split; [exact Eloop|]. split; [exact Hc|].
  split; [|split; [|split; [|split; [|split; [exact Hup|split]]]]].
  - subst new; rewrite map_map; cbn.
    symmetry; apply (vec_by_index radius fzero).
  - subst new; rewrite map_map; cbn.
    rewrite E1; symmetry; apply (vec_by_index speed fzero).
  - subst new; rewrite map_map; cbn.
    rewrite E1, E2; symmetry; apply (vec_by_index angle_i fzero).
  - subst new; apply Forall_forall; intros c Hc'.
    apply in_map_iff in Hc' as (i & <- & _); repeat split.
  - rewrite add_circles_unfold.
    rewrite (proj2 (Nat.eqb_eq _ _) E1); cbn [negb andb].
    unfold add_each; rewrite Eloop. exact Hup.
  - destruct (update_xy_frame e1) as ((Hc2 & _) & _).
    rewrite Hup in Hc2; cbn [snd] in Hc2. now rewrite Hc2.
Qed.

End AddAfterTime.

(** ** Epicycle: reachable states and the period cache *)

Section Reachability.
Context {F : Type} `{Float64 F}.

Lemma period_cache_same_frame (e e' : Epicycle.t F) :
  same_frame e e' -> period_cache_ok e -> period_cache_ok e'.
Proof.
  unfold same_frame, period_cache_ok; intros (Hc & _ & Hf & Hp & _) Inv Hd.
  rewrite Hc, Hp; apply Inv; congruence.
Qed.

Lemma add_loop_period_cache (radius speed angle_i : list F) (l : list nat) :
  forall e : Epicycle.t F,
    period_cache_ok e ->
    period_cache_ok
      (snd (for_each l (fun i =>
              r <- lift (getitem radius i) ;;
              s <- lift (getitem speed i) ;;
              a <- lift (getitem angle_i i) ;;
              Epicycle.add_circle r s a) e)).
Proof.
  induction l as [|i l IH]; intros e Inv; [exact Inv|].
  rewrite for_each_cons.
  unfold bind at 1, lift at 1.
  destruct (getitem radius i) as [r|ex]; [|exact Inv].
  unfold bind at 1, lift at 1.
  destruct (getitem speed i) as [s|ex]; [|exact Inv].
  unfold bind at 1, lift at 1.
  destruct (getitem angle_i i) as [a|ex]; [|exact Inv].
  rewrite add_circle_state.
  apply IH. intros Hd; discriminate Hd.
Qed.

Lemma exec_period_cache (o : op F) (e : Epicycle.t F) :
  period_cache_ok e -> period_cache_ok (exec o e).
Proof.
  intros Inv; destruct o as [value | | | value | r s a | r s a |];
    cbn [exec].
  - rewrite time_setter_call, time_set_by_outcome.
    destruct (time_of value) as [ts|ex]; [|exact Inv].
    cbn [snd]; unfold period_cache_ok, time_assigned; cbn.
    rewrite refreshed_speeds. exact Inv.
  - exact Inv.
  - rewrite trajectory_unfold.
    destruct (Epicycle._trajectory_changed e); [|exact Inv].
    destruct (Np.stack _) as [arr|ex]; exact Inv.
  - exact Inv.
  - rewrite add_circle_state; intros Hd; discriminate Hd.
  - rewrite add_circles_unfold.
    destruct (negb _ && negb _); [exact Inv|].
    pose proof (@add_loop_period_cache r s a (seq 0 (length r)) e Inv) as Inv1.
    unfold add_each.
    destruct (for_each _ _ e) as [[[]|ex] e1]; cbn [snd] in *; [|exact Inv1].
    eapply period_cache_same_frame; [|exact Inv1].
    apply update_xy_frame.
  - rewrite period_unfold.
    destruct (Epicycle._period_changed e) eqn:Hd; [|exact Inv].
    unfold period_cache_ok.
    destruct (Np.array_int _) as [ints|ex] eqn:Ea; [|cbn; congruence].
    destruct (Np.lcm_reduce ints) as [l|ex] eqn:El; [|cbn; congruence].
    cbn. intros _. unfold period_of. now rewrite Ea, El.
Qed.

Lemma reachable_period_cache (e : Epicycle.t F) :
  reachable e -> period_cache_ok e.
Proof.
  induction 1 as [|o e _ IH].
  - intros Hd; discriminate Hd.
  - now apply exec_period_cache.
Qed.

(** In a reachable state a read of [period] returns the value of the
    current circles, cached or not. *)
Lemma reachable_period (e : Epicycle.t F) :
  reachable e ->
  fst (Epicycle.period e)
  = period_of (map Circle.speed (Epicycle._circles e)).
Proof.
  intros Hr; pose proof (reachable_period_cache Hr) as Inv.
  rewrite period_unfold; unfold period_of.
  destruct (Epicycle._period_changed e) eqn:Hd.
  - destruct (Np.array_int _) as [ints|ex]; [|reflexivity].
    destruct (Np.lcm_reduce ints); reflexivity.
  - cbn [fst]. symmetry. exact (Inv Hd).
Qed.

(** C10. On a reachable Epicycle that owns no circle, reading [period]
    raises [ValueError] (the reduction of [lcm] over no speed at all) and
    the state is unchanged. *)
Theorem period_without_circles (e : Epicycle.t F) :
  reachable e ->
  Epicycle._circles e = [] ->
  Epicycle.period e = (Raise ValueError, e).
Proof.
  intros Hr Hc; pose proof (reachable_period_cache Hr) as Inv.
  rewrite period_unfold.
  destruct (Epicycle._period_changed e) eqn:Hd.
  - now rewrite Hc.
  - specialize (Inv Hd); rewrite Hc in Inv; discriminate Inv.
Qed.

End Reachability.

(** ** The period *)

Section LcmFacts.
Local Open Scope Z_scope.

Lemma wrap64_small (z : Z) :
  Np.int64_min <= z <= Np.int64_max -> Np.wrap64 z = z.
Proof.
  unfold Np.int64_min, Np.int64_max, Np.wrap64; intros Hz.
  rewrite Z.mod_small; lia.
Qed.

Lemma np_lcm_0_r (a : Z) : Np.lcm a 0 = 0.
Proof. unfold Np.lcm; now rewrite Z.lcm_0_r. Qed.

Lemma np_lcm_0_l (a : Z) : Np.lcm 0 a = 0.
Proof. unfold Np.lcm; now rewrite Z.lcm_0_l. Qed.

Lemma np_fold_from_0 (rest : list Z) : fold_left Np.lcm rest 0 = 0.
Proof.
  induction rest as [|b rest IH]; [reflexivity|].
  cbn [fold_left]; now rewrite np_lcm_0_l.
Qed.

Lemma np_fold_with_0 (rest : list Z) (acc : Z) :
  In 0 rest -> fold_left Np.lcm rest acc = 0.
Proof.
  revert acc; induction rest as [|b rest IH]; intros acc Hin;
    [destruct Hin|].
  destruct Hin as [E|Hin].
  - subst b; cbn [fold_left]; rewrite np_lcm_0_r; apply np_fold_from_0.
  - cbn [fold_left]; now apply IH.
Qed.

Lemma lcm_fold_eq_0 (rest : list Z) (acc : Z) :
  fold_left Z.lcm rest acc = 0 -> acc = 0 \/ In 0 rest.
Proof.
  revert acc; induction rest as [|b rest IH]; intros acc E.
  - now left.
  - cbn [fold_left] in E; destruct (IH _ E) as [E0|Hin].
    + apply Z.lcm_eq_0 in E0 as [->| ->]; [now left | right; now left].
    + right; now right.
Qed.

Lemma lcm_fold_divide (rest : list Z) (acc : Z) :
  (acc | fold_left Z.lcm rest acc).
Proof.
  revert acc; induction rest as [|b rest IH]; intros acc.
  - apply Z.divide_refl.
  - cbn [fold_left].
    eapply Z.divide_trans; [apply Z.divide_lcm_l | apply IH].
Qed.

Lemma lcm_fold_nonneg (rest : list Z) (acc : Z) :
  0 <= acc -> 0 <= fold_left Z.lcm rest acc.
Proof.
  revert acc; induction rest as [|b rest IH]; intros acc Ha; [exact Ha|].
  cbn [fold_left]; apply IH, Z.lcm_nonneg.
Qed.

(** The 64-bit reduction is exact as soon as the exact result fits. *)
Lemma np_fold_exact (rest : list Z) :
  forall acc : Z,
    fold_left Z.lcm rest acc <= Np.int64_max ->
    fold_left Np.lcm rest acc = fold_left Z.lcm rest acc.
Proof.
  induction rest as [|b rest IH]; intros acc Hle; [reflexivity|].
  cbn [fold_left] in *.
  pose proof (Z.lcm_nonneg acc b) as Hp.
  destruct (Z_le_gt_dec (Z.lcm acc b) Np.int64_max) as [Hs|Hb].
  - unfold Np.lcm at 2; rewrite wrap64_small.
    + now apply IH.
    + unfold Np.int64_min; lia.
  - pose proof (lcm_fold_divide rest (Z.lcm acc b)) as Hd.
    pose proof (lcm_fold_nonneg rest Hp) as Hn.
    assert (E0 : fold_left Z.lcm rest (Z.lcm acc b) = 0).
    { destruct (Z.eq_dec (fold_left Z.lcm rest (Z.lcm acc b)) 0) as [E|NE];
        [exact E|].
      apply Z.divide_pos_le in Hd; lia. }
    rewrite E0.
    destruct (lcm_fold_eq_0 _ _ E0) as [E|Hin].
    + unfold Np.int64_max in Hb; lia.
    + now apply np_fold_with_0.
Qed.

Lemma lcm_fold_list (rest : list Z) :
  forall acc : Z,
    rest <> [] -> fold_left Z.lcm rest acc = Z.lcm acc (lcm_list rest).
Proof.
  induction rest as [|b rest IH]; intros acc Hne; [congruence|].
  destruct rest as [|b' rest].
  - cbn. now rewrite Z.lcm_1_r, Z.lcm_abs_r.
  - cbn [fold_left]. cbn [fold_left] in IH.
    rewrite IH by discriminate.
    change (lcm_list (b :: b' :: rest))
      with (Z.lcm b (lcm_list (b' :: rest))).
    now rewrite Z.lcm_assoc.
Qed.

(** [lcm_list] is the least common multiple: it is not negative, every
    item divides it, and it divides every common multiple. *)
Lemma lcm_list_nonneg (zs : list Z) : 0 <= lcm_list zs.
Proof. destruct zs as [|z zs]; cbn; [lia | apply Z.lcm_nonneg]. Qed.

Lemma lcm_list_multiple (zs : list Z) (z : Z) :
  In z zs -> (z | lcm_list zs).
Proof.
  induction zs as [|a zs IH]; intros Hin; [destruct Hin|].
  cbn [lcm_list fold_right]; destruct Hin as [->|Hin].
  - apply Z.divide_lcm_l.
  - eapply Z.divide_trans; [now apply IH | apply Z.divide_lcm_r].
Qed.

Lemma lcm_list_least (zs : list Z) (m : Z) :
  (forall z, In z zs -> (z | m)) -> (lcm_list zs | m).
Proof.
  induction zs as [|a zs IH]; intros Hm.
  - apply Z.divide_1_l.
  - cbn [lcm_list fold_right]; apply Z.lcm_least.
    + apply Hm; now left.
    + apply IH; intros z Hz; apply Hm; now right.
Qed.

(** [np.lcm.reduce] is the least common multiple when that fits int64
    and the array has two items or more, or one non-negative item. *)
Lemma lcm_reduce_lcm_list (zs : list Z) :
  zs <> [] ->
  lcm_list zs <= Np.int64_max ->
  (2 <= length zs)%nat \/ 0 <= hd 0 zs ->
  Np.lcm_reduce zs = Ok (lcm_list zs).
Proof.
  destruct zs as [|z rest]; [congruence|]; intros _ Hle Hc.
  unfold Np.lcm_reduce; f_equal.
  destruct rest as [|b rest].
  - cbn in *. destruct Hc as [Hc|Hc]; [lia|].
    now rewrite Z.lcm_1_r_nonneg.
  - change (lcm_list (z :: b :: rest))
      with (Z.lcm z (lcm_list (b :: rest))) in *.
    rewrite <- lcm_fold_list in * by discriminate.
    now apply np_fold_exact.
Qed.

End LcmFacts.

Section PeriodClaims.
Context {F : Type} `{Float64 F}.

Lemma array_int_fits (l : list F) :
  forallb Np.in_int64 (map trunc l) = true ->
  Np.array_int l = Ok (map trunc l).
Proof.
  induction l as [|x l IH]; [reflexivity|].
  cbn [map forallb Np.array_int]; intros Hb.
  apply andb_prop in Hb as [Hx Hl].
  now rewrite Hx, IH.
Qed.

(** C6, amended. On a reachable Epicycle with at least one circle whose
    integer-cast speeds fit int64 and have a least common multiple that
    fits int64, and which has two circles or more or a single circle of
    non-negative integer-cast speed, [period] is [2 * pi] divided by the
    least common multiple of the integer-cast speeds. *)
Theorem period_is_two_pi_over_lcm (e : Epicycle.t F) :
  let zs := map (fun c => trunc (Circle.speed c)) (Epicycle._circles e) in
  reachable e ->
  Epicycle._circles e <> [] ->
  forallb Np.in_int64 zs = true ->
  (lcm_list zs <= Np.int64_max)%Z ->
  2 <= length zs \/ (0 <= hd 0%Z zs)%Z ->
  fst (Epicycle.period e)
  = Ok (fdiv (fmul (of_int 2) fpi) (of_int (lcm_list zs))).
Proof.
  intros zs Hr Hne Hfit Hle Hc.
  rewrite (reachable_period Hr); unfold period_of.
  assert (Ez : zs = map trunc (map Circle.speed (Epicycle._circles e)))
    by (subst zs; now rewrite map_map).
  rewrite array_int_fits by (now rewrite <- Ez).
  rewrite <- Ez, lcm_reduce_lcm_list; try assumption; [reflexivity|].
  subst zs; destruct (Epicycle._circles e); [congruence|discriminate].
Qed.

End PeriodClaims.

(** *** Concrete runs on the reals *)

(** C7 as stated does not hold. [np.array(['a', 'b'])] is not a numeric
    array, yet [update_arrays] raises [TypeError] on it, not
    [ValueError]; on the object array [np.array([0.0], dtype=object)] it
    raises [TypeError] too, after it has assigned [angles]. *)
Lemma update_arrays_type_error :
  let c : Circle.t R := Circle.__init__ 1%R 1%R 0%R None in
  Circle.update_arrays (PyStrArray [None; None]) c = (Raise TypeError, c)
  /\ exists c',
       Circle.update_arrays (PyObjectArray [Some 0%R]) c
       = (Raise TypeError, c')
       /\ Circle._angles c = []
       /\ Circle._angles c' = [(0 * 1 + 0)%R].
Proof.
  intros c; split; [reflexivity|].
  exists (Circle.set_angles [(0 * 1 + 0)%R] c).
  split; [|split; reflexivity].
  rewrite update_arrays_object. reflexivity.
Qed.



(** [Rtrunc] rounds toward zero. *)
Lemma Rtrunc_nonneg (r : R) :
  (0 <= r)%R -> (IZR (Rtrunc r) <= r < IZR (Rtrunc r) + 1)%R.
Proof.
  intros Hr; unfold Rtrunc; destruct (Rle_dec 0 r); [|contradiction].
  apply Zfloor_bound.
Qed.

Lemma Rtrunc_neg (r : R) :
  (r < 0)%R -> (IZR (Rtrunc r) - 1 < r <= IZR (Rtrunc r))%R.
Proof.
  intros Hr; unfold Rtrunc; destruct (Rle_dec 0 r); [lra|].
  apply Zceil_bound.
Qed.

Lemma Rtrunc_IZR (z : Z) : Rtrunc (IZR z) = z.
Proof.
  unfold Rtrunc; destruct (Rle_dec 0 (IZR z)).
  - apply ZfloorZ.
  - unfold Zceil. rewrite <- opp_IZR, ZfloorZ. lia.
Qed.

Lemma two_pi_over_signs (a b : R) :
  (a < 0)%R -> (0 < b)%R -> (2 * PI / a <> 2 * PI / b)%R.
Proof.
  intros Ha Hb.
  pose proof PI_RGT_0 as Hpi.
  pose proof (Rinv_lt_0_compat a Ha) as Hia.
  pose proof (Rinv_0_lt_compat b Hb) as Hib.
  unfold Rdiv; nra.
Qed.

Lemma period_of_R_ints (zs : list Z) :
  forallb Np.in_int64 zs = true ->
  period_of (map IZR zs)
  = match Np.lcm_reduce zs with
    | Ok l => Ok (2 * PI / IZR l)%R
    | Raise ex => Raise ex
    end.
Proof.
  intros Hfit; unfold period_of.
  assert (E : map trunc (map IZR zs) = zs).
  { rewrite map_map; rewrite <- (map_id zs) at 2.
    apply map_ext; intros z; apply Rtrunc_IZR. }
  rewrite array_int_fits by (now rewrite E).
  rewrite E. reflexivity.
Qed.

(** C6 as stated does not hold. With a single circle of speed -3 the reduction
    returns its only item, -3, and [period] is [2 * pi / -3], not
    [2 * pi / 3]; with speeds [2 ^ 62] and 3 the 64-bit [lcm] wraps to
    [- 2 ^ 62], and [period] is [2 * pi / - 2 ^ 62], not
    [2 * pi / (3 * 2 ^ 62)]. *)
Lemma period_not_lcm_in_general :
  (let e : Epicycle.t R :=
     exec (AddCircle 1%R (IZR (-3)) 0%R) Epicycle.__init__ in
   reachable e
   /\ Epicycle._circles e <> []
   /\ fst (Epicycle.period e)
      <> Ok (fdiv (fmul (of_int 2) fpi)
               (of_int (lcm_list (map (fun c => trunc (Circle.speed c))
                                    (Epicycle._circles e))))))
  /\ (let e : Epicycle.t R :=
        exec (AddCircle 1%R (IZR 3) 0%R)
          (exec (AddCircle 1%R (IZR (2 ^ 62)) 0%R) Epicycle.__init__) in
      reachable e
      /\ Epicycle._circles e <> []
      /\ fst (Epicycle.period e)
         <> Ok (fdiv (fmul (of_int 2) fpi)
                  (of_int (lcm_list (map (fun c => trunc (Circle.speed c))
                                       (Epicycle._circles e)))))).
Proof.
  split; intros e.
  - assert (Hr : reachable e) by (apply reachable_exec, reachable_init).
    split; [exact Hr|]. split; [discriminate|].
    rewrite (reachable_period Hr).
    change (map Circle.speed (Epicycle._circles e)) with (map IZR [(-3)%Z]).
    rewrite period_of_R_ints by reflexivity.
    change (map (fun c => trunc (Circle.speed c)) (Epicycle._circles e))
      with [Rtrunc (IZR (-3))].
    rewrite Rtrunc_IZR.
    change (lcm_list [(-3)%Z]) with 3%Z.
    cbn [Np.lcm_reduce fold_left].
    intros [= E]; revert E.
    apply two_pi_over_signs; [apply (IZR_lt (-3) 0) | apply (IZR_lt 0 3)]; lia.
  - assert (Hr : reachable e) by (do 2 apply reachable_exec; apply reachable_init).
    split; [exact Hr|]. split; [discriminate|].
    rewrite (reachable_period Hr).
    change (map Circle.speed (Epicycle._circles e))
      with (map IZR [(2 ^ 62)%Z; 3%Z]).
    rewrite period_of_R_ints by reflexivity.
    change (map (fun c => trunc (Circle.speed c)) (Epicycle._circles e))
      with [Rtrunc (IZR (2 ^ 62)); Rtrunc (IZR 3)].
    rewrite !Rtrunc_IZR.
    replace (Np.lcm_reduce [(2 ^ 62)%Z; 3%Z]) with (Ok (- 2 ^ 62)%Z : result Z)
      by (vm_compute; reflexivity).
    replace (lcm_list [(2 ^ 62)%Z; 3%Z]) with (3 * 2 ^ 62)%Z
      by (vm_compute; reflexivity).
    intros [= E]; revert E.
    apply two_pi_over_signs;
      [apply (IZR_lt (- 2 ^ 62) 0) | apply (IZR_lt 0 (3 * 2 ^ 62))]; lia.
Qed.

(** Two circles of speeds 2 and 7: the period is [2 * pi / 14]. *)
Lemma period_is_two_pi_over_lcm_witness :
  let e : Epicycle.t R :=
    exec (AddCircle 2%R (IZR 7) 0%R)
      (exec (AddCircle 1%R (IZR 2) 0%R) Epicycle.__init__) in
  let zs := map (fun c => trunc (Circle.speed c)) (Epicycle._circles e) in
  (reachable e
   /\ Epicycle._circles e <> []
   /\ forallb Np.in_int64 zs = true
   /\ (lcm_list zs <= Np.int64_max)%Z
   /\ (2 <= length zs \/ (0 <= hd 0%Z zs)%Z))
  /\ fst (Epicycle.period e) = Ok (2 * PI / IZR 14)%R.
Proof.
  intros e zs.
  assert (Hr : reachable e)
    by (do 2 apply reachable_exec; apply reachable_init).
  assert (Hne : Epicycle._circles e <> []) by discriminate.
  assert (Ez : zs = [2%Z; 7%Z]).
  { change zs with [Rtrunc (IZR 2); Rtrunc (IZR 7)].
    now rewrite !Rtrunc_IZR. }
  assert (Hfit : forallb Np.in_int64 zs = true) by (now rewrite Ez).
  assert (Hle : (lcm_list zs <= Np.int64_max)%Z)
    by (rewrite Ez; discriminate).
  assert (Hc : 2 <= length zs \/ (0 <= hd 0%Z zs)%Z)
    by (left; apply le_n).
  split; [repeat split; assumption|].
  pose proof (@period_is_two_pi_over_lcm R Float64_R e Hr Hne Hfit Hle Hc)
    as P.
  fold zs in P; rewrite Ez in P. exact P.
Defined.

(** A fresh Epicycle has no circle: reading its period raises. *)
Lemma period_without_circles_witness :
  (reachable (Epicycle.__init__ (F := R))
   /\ Epicycle._circles (Epicycle.__init__ (F := R)) = [])
  /\ Epicycle.period (Epicycle.__init__ (F := R))
     = (Raise ValueError, Epicycle.__init__).
Proof.
  split; [split; [apply reachable_init | reflexivity]|].
  apply (@period_without_circles R Float64_R Epicycle.__init__).
  - apply reachable_init.
  - reflexivity.
Defined.

(** The time domain [[0.0]] is set, then one circle is added in batch. *)
Lemma add_circles_after_time_raises_witness :
  let e : Epicycle.t R :=
    {| Epicycle._circles := [];
       Epicycle._time := [0%R];
       Epicycle._x := [0%R];
       Epicycle._y := [0%R];
       Epicycle._period_changed := true;
       Epicycle._trajectory_changed := true;
       Epicycle._period := 0%R;
       Epicycle._trajectory := Np.Arr1 [] |} in
  (Epicycle._time e <> []
   /\ [1%R] <> []
   /\ length [1%R] = length [2%R]
   /\ length [2%R] = length [0%R])
  /\ exists e2,
       Epicycle.add_circles [1%R] [2%R] [0%R] e = (Raise ValueError, e2).
Proof.
  intros e.
  split; [repeat split; discriminate|].
  destruct (@add_circles_after_time_raises R Float64_R e [1%R] [2%R] [0%R])
    as (e1 & e2 & new & _ & _ & _ & _ & _ & _ & _ & E & _).
  - discriminate.
  - discriminate.
  - reflexivity.
  - reflexivity.
  - exists e2; exact E.
Defined.

(** * Further properties *)

(** ** Circle: updates and the local trajectory *)

Section CircleUpdates.
Context {F : Type} `{Float64 F}.

Lemma update_arrays_other (value : pyobj F) (c : Circle.t F) :
  as_rank1 value = None ->
  Circle.update_arrays value c = (Raise ValueError, c).
Proof. intros E; unfold Circle.update_arrays; now rewrite E. Qed.

(** The three ways a call of [update_arrays] ends: all arrays recomputed,
    nothing changed, or [angles] alone assigned before [np.cos] raises. *)
Lemma update_arrays_cases (value : pyobj F) (c : Circle.t F) :
  (exists ts, Circle.update_arrays value c = (Ok tt, refreshed ts c))
  \/ (exists ex, Circle.update_arrays value c = (Raise ex, c))
  \/ (exists a,
        Circle.update_arrays value c
        = (Raise TypeError, Circle.set_angles a c)).
Proof.
  destruct value as [| x | l | [ts | rows] | items | items];
    try (right; left; eexists; reflexivity).
  - left; exists ts; apply update_arrays_rank1.
  - rewrite update_arrays_object.
    destruct (Np.all_floats items) as [[|t ts]|].
    + left; exists []; reflexivity.
    + right; right; eexists; reflexivity.
    + right; left; eexists; reflexivity.
Qed.

Lemma refreshed_refreshed (ts ts' : Np.vec F) (c : Circle.t F) :
  refreshed ts (refreshed ts' c) = refreshed ts c.
Proof. reflexivity. Qed.

Lemma update_arrays_balanced (value : pyobj F) (c : Circle.t F) :
  length (Circle._local_x c) = length (Circle._local_y c) ->
  length (Circle._local_x (snd (Circle.update_arrays value c)))
  = length (Circle._local_y (snd (Circle.update_arrays value c))).
Proof.
  intros E;
    destruct (update_arrays_cases value c) as [(ts & ->)|[(ex & ->)|(a & ->)]];
    cbn [snd]; [|exact E|exact E].
  cbn; now rewrite !length_map.
Qed.

Lemma updates_balanced (vs : list (pyobj F)) (c : Circle.t F) :
  length (Circle._local_x c) = length (Circle._local_y c) ->
  length (Circle._local_x (updates vs c))
  = length (Circle._local_y (updates vs c)).
Proof.
  unfold updates; revert c; induction vs as [|v vs IH]; intros c E;
    [exact E|].
  cbn [fold_left]; apply IH; now apply update_arrays_balanced.
Qed.

(** X1. On a circle built by the constructor and then updated any number
    of times, with whatever arguments, [local_trajectory] does not raise:
    it returns the two-row matrix of [local_x] over [local_y], whose rows
    have one length, and leaves the circle as it is. *)
Theorem local_trajectory_total (radius speed angle_i : F)
  (angles : option (Np.vec F)) (vs : list (pyobj F)) :
  let c := updates vs (Circle.__init__ radius speed angle_i angles) in
  Circle.local_trajectory c
  = (Ok (Np.Arr2 [Circle._local_x c; Circle._local_y c]), c)
  /\ length (Circle._local_x c) = length (Circle._local_y c).
Proof.
  intros c.
  assert (E : length (Circle._local_x c) = length (Circle._local_y c)).
  { subst c; apply updates_balanced; destruct angles; reflexivity. }
  split; [|exact E].
  unfold Circle.local_trajectory, bind, get, lift, Np.stack; cbn.
  now rewrite E, Nat.eqb_refl.
Qed.

Lemma updates_params (vs : list (pyobj F)) (c : Circle.t F) :
  circle_params (updates vs c) = circle_params c.
Proof.
  unfold updates; revert c; induction vs as [|v vs IH]; intros c;
    [reflexivity|].
  cbn [fold_left]; rewrite IH.
  destruct (update_arrays_cases v c) as [(ts & ->)|[(ex & ->)|(a & ->)]];
    reflexivity.
Qed.

(** X2. The derived arrays of a circle depend on its parameters and on
    the last time array only: after any earlier calls of [update_arrays],
    failed or not, a call with the rank-one array [ts] leaves the circle
    it would leave on the untouched circle, the three parameters being
    those given to the constructor. *)
Theorem update_arrays_last_wins (vs : list (pyobj F)) (ts : Np.vec F)
  (c : Circle.t F) :
  Circle.update_arrays (PyNdarray (Np.Arr1 ts)) (updates vs c)
  = Circle.update_arrays (PyNdarray (Np.Arr1 ts)) c
  /\ circle_params (snd (Circle.update_arrays (PyNdarray (Np.Arr1 ts))
                           (updates vs c)))
     = circle_params c.
Proof.
  rewrite !update_arrays_rank1; cbn [snd].
  pose proof (updates_params vs c) as P.
  unfold circle_params in P; injection P as Pr Ps Pa.
  split.
  - f_equal. unfold refreshed, x_at, y_at, angle_at.
    now rewrite Pr, Ps, Pa.
  - unfold circle_params; cbn. now rewrite Pr, Ps, Pa.
Qed.

End CircleUpdates.

(** ** Epicycle: what happens between two time assignments *)

Section BetweenTimeAssignments.
Context {F : Type} `{Float64 F}.

Lemma for_each_app (S A : Type) (body : A -> M S unit) (l1 l2 : list A)
  (s : S) :
  for_each (l1 ++ l2) body s
  = match for_each l1 body s with
    | (Ok _, s') => for_each l2 body s'
    | (Raise ex, s') => (Raise ex, s')
    end.
Proof.
  revert s; induction l1 as [|a l1 IH]; intros s; [reflexivity|].
  cbn [app]; rewrite !for_each_cons.
  destruct (body a s) as [[[]|ex] s']; [apply IH | reflexivity].
Qed.

Lemma add_local_flag (c : Circle.t F) (e : Epicycle.t F) :
  Epicycle._trajectory_changed (snd (add_local c e))
  = Epicycle._trajectory_changed e.
Proof.
  unfold add_local; unfold_monad.
  destruct (Np.iadd (Epicycle._x e) _) as [x|ex]; cbn; [|reflexivity].
  destruct (Np.iadd (Epicycle._y e) _) as [y|ex]; reflexivity.
Qed.

Lemma add_local_loop_flag (cs : list (Circle.t F)) (e : Epicycle.t F) :
  Epicycle._trajectory_changed (snd (for_each cs add_local e))
  = Epicycle._trajectory_changed e.
Proof.
  revert e; induction cs as [|c cs IH]; intros e; [reflexivity|].
  rewrite for_each_cons.
  pose proof (add_local_flag c e) as E.
  destruct (add_local c e) as [[[]|ex] e1]; cbn [snd] in *.
  - now rewrite IH.
  - exact E.
Qed.

(** A circle with empty local arrays leaves the accumulators as they
    are, whether its [+=] raises (non-empty accumulator) or not. *)
Lemma add_local_empty (c : Circle.t F) (e : Epicycle.t F) :
  Circle._local_x c = [] -> Circle._local_y c = [] ->
  Epicycle._x (snd (add_local c e)) = Epicycle._x e
  /\ Epicycle._y (snd (add_local c e)) = Epicycle._y e.
Proof.
  intros Ex Ey; unfold add_local; unfold_monad; rewrite Ex, Ey.
  destruct (Epicycle._x e) as [|a x] eqn:Hx; cbn.
  - destruct (Epicycle._y e) as [|b y] eqn:Hy; cbn; auto.
  - auto.
Qed.

Lemma add_local_loop_empty (cs : list (Circle.t F)) (e : Epicycle.t F) :
  Forall (fun c => Circle._local_x c = [] /\ Circle._local_y c = []) cs ->
  Epicycle._x (snd (for_each cs add_local e)) = Epicycle._x e
  /\ Epicycle._y (snd (for_each cs add_local e)) = Epicycle._y e.
Proof.
  revert e; induction cs as [|c cs IH]; intros e HF; [split; reflexivity|].
  inversion HF as [|? ? [Ex Ey] HF']; subst.
  rewrite for_each_cons.
  destruct (@add_local_empty c e Ex Ey) as [Hx Hy].
  destruct (add_local c e) as [[[]|ex] e1]; cbn [snd] in *.
  - destruct (IH e1 HF') as [Hx' Hy']; split; congruence.
  - split; assumption.
Qed.

Section Base.
Variables (ts : Np.vec F) (e0 b : Epicycle.t F).
Hypothesis base : b = time_assigned ts e0.

Lemma base_lengths :
  length (Epicycle._x b) = length (Epicycle._time b)
  /\ length (Epicycle._y b) = length (Epicycle._time b).
Proof. rewrite base; apply time_assigned_lengths. Qed.

Lemma base_aggregates :
  Epicycle._x b
  = accumulate (Np.zeros_like (Epicycle._time b))
      (map Circle._local_x (Epicycle._circles b))
  /\ Epicycle._y b
     = accumulate (Np.zeros_like (Epicycle._time b))
         (map Circle._local_y (Epicycle._circles b))
  /\ Forall (fun c =>
               length (Circle._local_x c) = length (Epicycle._time b)
               /\ length (Circle._local_y c) = length (Epicycle._time b))
       (Epicycle._circles b).
Proof.
  rewrite base; repeat split; apply refreshed_lengths.
Qed.

Lemma settled_base : settled b b.
Proof.
  split; [|split; [|split; [|split]]]; try reflexivity.
  - exists []; split; [now rewrite app_nil_r | constructor].
  - rewrite base; discriminate.
Qed.

Lemma update_xy_settled (e : Epicycle.t F) :
  settled b e -> settled b (snd (Epicycle._update_xy e)).
Proof.
  intros (Ht & Hx & Hy & (extra & Hc & Hex) & Hd).
  destruct (update_xy_frame e) as ((Fc & Ft & _ & _ & Ftr) & _ & _).
  rewrite update_xy_unfold in *; cbv zeta in *.
  set (s0 := Epicycle.set_y _ _) in *.
  rewrite Hc, for_each_app in *.
  assert (E1 : for_each (Epicycle._circles b) add_local s0
               = (Ok tt,
                  Epicycle.set_y (Epicycle._y b)
                    (Epicycle.set_x (Epicycle._x b) s0))).
  { destruct base_aggregates as (Bx & By & Bl).
    rewrite add_local_loop_ok.
    - subst s0; cbn [Epicycle._x Epicycle._y Epicycle.set_x Epicycle.set_y].
      now rewrite Ht, <- Bx, <- By.
    - subst s0; cbn [Epicycle._x Epicycle._y Epicycle.set_x Epicycle.set_y].
      rewrite !zeros_like_length, Ht. exact Bl. }
  rewrite E1 in *.
  set (s1 := Epicycle.set_y (Epicycle._y b) _) in *.
  destruct (@add_local_loop_empty extra s1 Hex) as [Hx1 Hy1].
  pose proof (add_local_loop_flag extra s1) as Hf1.
  destruct (for_each extra add_local s1) as [[[]|ex] s2]; cbn [snd] in *.
  - cbn in Fc, Ft, Ftr.
    split; [|split; [|split; [|split]]]; cbn.
    + congruence.
    + now rewrite Hx1.
    + now rewrite Hy1.
    + exists extra; split; [exact Fc | exact Hex].
    + discriminate.
  - split; [|split; [|split; [|split]]].
    + congruence.
    + now rewrite Hx1.
    + now rewrite Hy1.
    + exists extra; split; [exact Fc | exact Hex].
    + intros Hflag. rewrite Ftr. apply Hd.
      rewrite <- Hflag, Hf1. reflexivity.
Qed.

Lemma add_circle_settled (r s a : F) (e : Epicycle.t F) :
  settled b e -> settled b (snd (Epicycle.add_circle r s a e)).
Proof.
  intros (Ht & Hx & Hy & (extra & Hc & Hex) & Hd).
  rewrite add_circle_state; cbn [snd].
  split; [|split; [|split; [|split]]]; cbn; try assumption.
  - eexists (extra ++ [_]); split.
    + rewrite Hc, <- app_assoc; reflexivity.
    + apply Forall_app; split; [exact Hex|].
      constructor; [split; reflexivity | constructor].
  - discriminate.
Qed.

Lemma add_loop_settled (radius speed angle_i : list F) (l : list nat) :
  forall e : Epicycle.t F,
    settled b e ->
    settled b
      (snd (for_each l (fun i =>
              r <- lift (getitem radius i) ;;
              s <- lift (getitem speed i) ;;
              a <- lift (getitem angle_i i) ;;
              Epicycle.add_circle r s a) e)).
Proof.
  induction l as [|i l IH]; intros e St; [exact St|].
  rewrite for_each_cons.
  unfold bind at 1, lift at 1.
  destruct (getitem radius i) as [r|ex]; [|exact St].
  unfold bind at 1, lift at 1.
  destruct (getitem speed i) as [s|ex]; [|exact St].
  unfold bind at 1, lift at 1.
  destruct (getitem angle_i i) as [a|ex]; [|exact St].
  pose proof (@add_circle_settled r s a e St) as St1.
  rewrite add_circle_state in *; cbn [snd] in St1.
  now apply IH.
Qed.

Lemma exec_settled (o : op F) (e : Epicycle.t F) :
  assigns_time o = false -> settled b e -> settled b (exec o e).
Proof.
  intros Ho St; destruct o as [value | | | value | r s a | r s a |];
    cbn [exec].
  - cbn [assigns_time] in Ho.
    rewrite time_setter_call, time_set_by_outcome.
    destruct (time_of value); [discriminate | exact St].
  - exact St.
  - pose proof St as (Ht & Hx & Hy & Hex & Hd).
    destruct base_lengths as [Lx Ly].
    rewrite trajectory_unfold.
    destruct (Epicycle._trajectory_changed e) eqn:Hflag; [|exact St].
    rewrite stack4
      by (rewrite ?zeros_like_length, ?ones_like_length; congruence).
    cbn [snd]; split; [|split; [|split; [|split]]]; cbn; try assumption.
    intros _; now rewrite Hx, Hy, Ht.
  - exact St.
  - now apply add_circle_settled.
  - rewrite add_circles_unfold.
    destruct (negb _ && negb _); [exact St|].
    pose proof (@add_loop_settled r s a (seq 0 (length r)) e St) as St1.
    unfold add_each.
    destruct (for_each _ _ e) as [[[]|ex] e1]; cbn [snd] in *;
      [|exact St1].
    now apply update_xy_settled.
  - rewrite period_unfold.
    destruct (Epicycle._period_changed e); [|exact St].
    destruct (Np.array_int _) as [ints|ex]; [|exact St].
    destruct (Np.lcm_reduce ints) as [l|ex]; exact St.
Qed.


Lemma trajectory_settled (e : Epicycle.t F) :
  settled b e ->
  fst (Epicycle.trajectory e)
  = Ok (Np.Arr2 [Epicycle._x b; Epicycle._y b;
                 Np.zeros_like (Epicycle._time b);
                 Np.ones_like (Epicycle._time b)]).
Proof.
  intros (Ht & Hx & Hy & Hex & Hd).
  destruct base_lengths as [Lx Ly].
  rewrite trajectory_unfold.
  destruct (Epicycle._trajectory_changed e) eqn:Hflag.
  - rewrite stack4
      by (rewrite ?zeros_like_length, ?ones_like_length; congruence).
    cbn [fst]; now rewrite Hx, Hy, Ht.
  - cbn [fst]; now rewrite Hd.
Qed.

End Base.

End BetweenTimeAssignments.

Section TrajectoryStability.
Context {F : Type} `{Float64 F}.

Lemma assigns_time_inv (o : op F) :
  assigns_time o = true ->
  exists ts, forall e, exec o e = time_assigned ts e.
Proof.
  destruct o as [value | | | value | r s a | r s a |]; try discriminate.
  cbn [assigns_time exec]; intros Ho.
  destruct (time_of value) as [ts|ex] eqn:Et; [|discriminate].
  exists ts; intros e.
  now rewrite time_setter_call, time_set_by_outcome, Et.
Qed.

Lemma exec_time_assignment (ts : Np.vec F) (e : Epicycle.t F) :
  exec (TimeSet (PyNdarray (Np.Arr1 ts))) e = time_assigned ts e.
Proof. cbn [exec]; now rewrite time_setter_call, time_set_rank1. Qed.

(** Every reachable state is settled on the state left by the last time
    assignment, [Epicycle()] counting as the assignment of no sample. *)
Lemma reachable_settled (e : Epicycle.t F) :
  reachable e -> exists ts e0, settled (time_assigned ts e0) e.
Proof.
  induction 1 as [|o e _ (ts & e0 & St)].
  - exists [], Epicycle.__init__.
    apply (@settled_base _ _ [] Epicycle.__init__); reflexivity.
  - destruct (assigns_time o) eqn:Ho.
    + apply assigns_time_inv in Ho as (ts' & ->).
      exists ts', e.
      apply (@settled_base _ _ ts' e); reflexivity.
    + exists ts, e0.
      apply (@exec_settled _ _ ts e0); (reflexivity || assumption).
Qed.

(** X3. In every state reachable from [Epicycle()] a read of
    [trajectory] returns a matrix and never raises: four rows of
    [len(time)] items each, row 2 constant 0.0 and row 3 constant 1.0. *)
Theorem trajectory_total (e : Epicycle.t F) :
  reachable e ->
  exists (X Y : Np.vec F) (e' : Epicycle.t F),
    Epicycle.trajectory e
    = (Ok (Np.Arr2 [X; Y;
                    map (fun _ => fzero) (Epicycle._time e);
                    map (fun _ => fone) (Epicycle._time e)]), e')
    /\ length X = length (Epicycle._time e)
    /\ length Y = length (Epicycle._time e)
    /\ Np.shape (Np.Arr2 [X; Y;
                          map (fun _ => fzero) (Epicycle._time e);
                          map (fun _ => fone) (Epicycle._time e)])
       = [4; length (Epicycle._time e)].
Proof.
  intros Hr; destruct (reachable_settled Hr) as (ts & e0 & St).
  pose proof (@trajectory_settled _ _ ts e0 _ eq_refl e St) as E.
  destruct (@base_lengths _ _ ts e0 _ eq_refl) as [Lx Ly].
  destruct St as (Ht & _).
  exists (Epicycle._x (time_assigned ts e0)),
    (Epicycle._y (time_assigned ts e0)), (snd (Epicycle.trajectory e)).
  rewrite Ht; split; [|split; [exact Lx | split; [exact Ly|]]].
  - rewrite (surjective_pairing (Epicycle.trajectory e)), E. reflexivity.
  - cbn [Np.shape length hd]. now rewrite Lx.
Qed.


(** X7. The last time assignment wins: [e.time = ts] after an earlier
    assignment, successful or not, leaves the state it would leave
    without the earlier one, and [e.time] then returns [ts]. *)
Theorem time_assignment_last_wins (value : pyobj F) (ts : Np.vec F)
  (e : Epicycle.t F) :
  exec (TimeSet (PyNdarray (Np.Arr1 ts))) (exec (TimeSet value) e)
  = exec (TimeSet (PyNdarray (Np.Arr1 ts))) e
  /\ Epicycle.time (exec (TimeSet (PyNdarray (Np.Arr1 ts))) e)
     = (Ok ts, exec (TimeSet (PyNdarray (Np.Arr1 ts))) e).
Proof.
  split.
  - rewrite !exec_time_assignment.
    cbn [exec]; rewrite time_setter_call, time_set_by_outcome.
    destruct (time_of value) as [ts'|ex]; [|reflexivity].
    cbn [snd]; unfold time_assigned; cbn.
    now rewrite !map_map.
  - rewrite exec_time_assignment; reflexivity.
Qed.

End TrajectoryStability.

(** ** Epicycle: the circles and the period across operations *)

Section CirclesAcrossOperations.
Context {F : Type} `{Float64 F}.

Lemma add_loop_circles (radius speed angle_i : list F) (l : list nat) :
  forall e : Epicycle.t F,
    exists extra,
      Epicycle._circles
        (snd (for_each l (fun i =>
                r <- lift (getitem radius i) ;;
                s <- lift (getitem speed i) ;;
                a <- lift (getitem angle_i i) ;;
                Epicycle.add_circle r s a) e))
      = Epicycle._circles e ++ extra.
Proof.
  induction l as [|i l IH]; intros e.
  - exists []; cbn; now rewrite app_nil_r.
  - rewrite for_each_cons.
    unfold bind at 1, lift at 1.
    destruct (getitem radius i) as [r|ex];
      [|exists []; cbn; now rewrite app_nil_r].
    unfold bind at 1, lift at 1.
    destruct (getitem speed i) as [s|ex];
      [|exists []; cbn; now rewrite app_nil_r].
    unfold bind at 1, lift at 1.
    destruct (getitem angle_i i) as [a|ex];
      [|exists []; cbn; now rewrite app_nil_r].
    rewrite add_circle_state.
    match goal with
    | |- context [for_each l _ ?e1] => destruct (IH e1) as (extra & E)
    end.
    rewrite E; cbn [Epicycle._circles].
    eexists; rewrite <- app_assoc; reflexivity.
Qed.

Lemma refreshed_params (ts : Np.vec F) (cs : list (Circle.t F)) :
  map circle_params (map (refreshed ts) cs) = map circle_params cs.
Proof. now rewrite map_map. Qed.

Lemma exec_params (o : op F) (e : Epicycle.t F) :
  exists added,
    map circle_params (Epicycle._circles (exec o e))
    = map circle_params (Epicycle._circles e) ++ added
    /\ (if adds_circles o then True else added = []).
Proof.
  destruct o as [value | | | value | r s a | r s a |];
    cbn [exec adds_circles].
  - exists []; split; [|reflexivity].
    rewrite app_nil_r, time_setter_call, time_set_by_outcome.
    destruct (time_of value) as [ts|ex]; [|reflexivity].
    cbn [snd time_assigned Epicycle._circles].
    apply refreshed_params.
  - exists []; split; [now rewrite app_nil_r | reflexivity].
  - exists []; split; [|reflexivity]. rewrite app_nil_r, trajectory_unfold.
    destruct (Epicycle._trajectory_changed e); [|reflexivity].
    destruct (Np.stack _); reflexivity.
  - exists []; split; [now rewrite app_nil_r | reflexivity].
  - rewrite add_circle_state; cbn [snd Epicycle._circles].
    eexists; split; [apply map_app | exact I].
  - rewrite add_circles_unfold.
    destruct (negb _ && negb _);
      [exists []; split; [now rewrite app_nil_r | exact I]|].
    destruct (@add_loop_circles r s a (seq 0 (length r)) e) as (extra & E).
    unfold add_each.
    destruct (for_each _ _ e) as [[[]|ex] e1]; cbn [snd] in *.
    + destruct (update_xy_frame e1) as ((Fc & _) & _).
      rewrite Fc, E. eexists; split; [apply map_app | exact I].
    + rewrite E. eexists; split; [apply map_app | exact I].
  - exists []; split; [|reflexivity]. rewrite app_nil_r, period_unfold.
    destruct (Epicycle._period_changed e); [|reflexivity].
    destruct (Np.array_int _) as [ints|ex]; [|reflexivity].
    destruct (Np.lcm_reduce ints); reflexivity.
Qed.

Lemma exec_all_params_fixed (l : list (op F)) (e : Epicycle.t F) :
  forallb (fun o => negb (adds_circles o)) l = true ->
  map circle_params (Epicycle._circles (exec_all l e))
  = map circle_params (Epicycle._circles e).
Proof.
  unfold exec_all; revert e; induction l as [|o l IH]; intros e Hl;
    [reflexivity|].
  cbn [forallb] in Hl; apply andb_prop in Hl as [Ho Hl].
  cbn [fold_left]; rewrite (IH _ Hl).
  destruct (exec_params o e) as (added & E & N).
  apply negb_true_iff in Ho; rewrite Ho in N; subst added.
  now rewrite app_nil_r in E.
Qed.

(** X6. No operation removes, reorders or alters a circle's parameters:
    after any sequence of operations the parameter triples
    [(radius, speed, angle_i)] of the circles are those from before,
    in their order, followed by those of the circles added, and by none
    when the sequence calls neither [add_circle] nor [add_circles]. *)
Theorem circles_only_appended (l : list (op F)) (e : Epicycle.t F) :
  exists added,
    map circle_params (Epicycle._circles (exec_all l e))
    = map circle_params (Epicycle._circles e) ++ added
    /\ (if forallb (fun o => negb (adds_circles o)) l
        then added = [] else True).
Proof.
  unfold exec_all; revert e; induction l as [|o l IH]; intros e.
  - exists []; split; [now rewrite app_nil_r | reflexivity].
  - cbn [fold_left forallb].
    destruct (IH (exec o e)) as (added2 & E2 & N2).
    destruct (exec_params o e) as (added1 & E1 & N1).
    exists (added1 ++ added2); split.
    + now rewrite E2, E1, app_assoc.
    + destruct (adds_circles o); cbn [negb andb]; [exact I|].
      destruct (forallb _ l); [|exact I].
      now rewrite N1, N2.
Qed.

Lemma reachable_exec_all (l : list (op F)) (e : Epicycle.t F) :
  reachable e -> reachable (exec_all l e).
Proof.
  unfold exec_all; revert e; induction l as [|o l IH]; intros e Hr;
    [exact Hr|].
  cbn [fold_left]; apply IH; now constructor.
Qed.

Lemma params_speeds (cs : list (Circle.t F)) :
  map Circle.speed cs = map (fun p => snd (fst p)) (map circle_params cs).
Proof. now rewrite map_map. Qed.

(** X5. The period changes through added circles only: from a reachable
    state, after any sequence of operations that calls neither
    [add_circle] nor [add_circles] (time assignments included), a read
    of [period] has the outcome it had before the sequence. *)
Theorem period_fixed_until_circle_added (e : Epicycle.t F)
  (l : list (op F)) :
  reachable e ->
  forallb (fun o => negb (adds_circles o)) l = true ->
  fst (Epicycle.period (exec_all l e)) = fst (Epicycle.period e).
Proof.
  intros Hr Hl.
  rewrite (reachable_period (reachable_exec_all l Hr)), (reachable_period Hr).
  now rewrite !params_speeds, (exec_all_params_fixed l e Hl).
Qed.

End CirclesAcrossOperations.

(** ** Epicycle: [add_circles] on lists of different lengths *)

Section BatchAddition.
Context {F : Type} `{Float64 F}.

(** X9. When the chained comparison lets the lists through and [radius]
    is longer than [speed] or [angle_i], [add_circles] raises
    [IndexError] after it has appended one circle for each of the first
    [min(len(speed), len(angle_i))] positions; the time domain and the
    combined arrays are untouched. *)
Theorem add_circles_index_error (e : Epicycle.t F)
  (radius speed angle_i : list F) :
  length radius = length speed \/ length speed = length angle_i ->
  Nat.min (length speed) (length angle_i) < length radius ->
  exists e',
    Epicycle.add_circles radius speed angle_i e = (Raise IndexError, e')
    /\ Epicycle._circles e'
       = Epicycle._circles e
         ++ map (fresh_circle radius speed angle_i (Epicycle._time e))
              (seq 0 (Nat.min (length speed) (length angle_i)))
    /\ Epicycle._time e' = Epicycle._time e
    /\ Epicycle._x e' = Epicycle._x e
    /\ Epicycle._y e' = Epicycle._y e.
Proof.
  intros Hg Hm.
  set (m := Nat.min (length speed) (length angle_i)) in *.
  rewrite add_circles_unfold.
  assert (G : negb (Nat.eqb (length radius) (length speed))
              && negb (Nat.eqb (length speed) (length angle_i)) = false).
  { apply andb_false_iff; destruct Hg as [E|E];
      [left | right]; now rewrite E, Nat.eqb_refl. }
  rewrite G; unfold add_each.
  assert (Esplit : seq 0 (length radius)
                   = seq 0 m ++ seq m (length radius - m))
    by (rewrite <- seq_app; f_equal; lia).
  rewrite Esplit, for_each_app.
  destruct (@add_loop_ok _ _ radius speed angle_i m 0 e)
    as (e1 & E1 & Hc & Ht & Hx & Hy); try (subst m; lia).
  rewrite E1.
  destruct (length radius - m) as [|k] eqn:Ek; [lia|].
  cbn [seq]; rewrite for_each_cons.
  unfold bind at 1, lift at 1, getitem at 1.
  rewrite (nth_error_nth' radius fzero) by lia.
  unfold bind at 1, lift at 1, getitem at 1.
  destruct (nth_error speed m) as [s|] eqn:Es.
  - unfold bind at 1, lift at 1, getitem at 1.
    destruct (nth_error angle_i m) as [a|] eqn:Ea.
    + exfalso.
      assert (m < length speed) by (apply nth_error_Some; congruence).
      assert (m < length angle_i) by (apply nth_error_Some; congruence).
      subst m; lia.
    + exists e1; repeat split; assumption.
  - exists e1; repeat split; assumption.
Qed.

(** In a reachable state every circle carries local arrays of the length
    of the time domain, or empty ones. *)
Lemma reachable_locals (e : Epicycle.t F) :
  reachable e ->
  Forall (fun c =>
            (length (Circle._local_x c) = length (Epicycle._time e)
             /\ length (Circle._local_y c) = length (Epicycle._time e))
            \/ (Circle._local_x c = [] /\ Circle._local_y c = []))
    (Epicycle._circles e).
Proof.
  intros Hr; destruct (reachable_settled Hr) as (ts & e0 & St).
  destruct St as (Ht & _ & _ & (extra & Hc & Hex) & _).
  rewrite Hc, Ht; apply Forall_app; split.
  - eapply Forall_impl; [|apply refreshed_lengths].
    intros c Hl; left; exact Hl.
  - eapply Forall_impl; [|exact Hex]. intros c Hl; right; exact Hl.
Qed.

Lemma add_circles_on_empty_locals (e : Epicycle.t F)
  (radius speed angle_i : list F) :
  Epicycle._time e = [] ->
  Forall (fun c => Circle._local_x c = [] /\ Circle._local_y c = [])
    (Epicycle._circles e) ->
  length radius <= length speed ->
  length radius <= length angle_i ->
  length radius = length speed \/ length speed = length angle_i ->
  exists e',
    Epicycle.add_circles radius speed angle_i e = (Ok tt, e')
    /\ Epicycle._circles e'
       = Epicycle._circles e
         ++ map (fresh_circle radius speed angle_i [])
              (seq 0 (length radius))
    /\ Epicycle._time e' = [].
Proof.
  intros Ht HL Ls La Hg.
  rewrite add_circles_unfold.
  assert (G : negb (Nat.eqb (length radius) (length speed))
              && negb (Nat.eqb (length speed) (length angle_i)) = false).
  { apply andb_false_iff; destruct Hg as [E|E];
      [left | right]; now rewrite E, Nat.eqb_refl. }
  rewrite G; unfold add_each.
  destruct (@add_loop_ok _ _ radius speed angle_i (length radius) 0 e)
    as (e1 & E1 & Hc & Ht1 & Hx & Hy); try lia.
  rewrite E1, Ht in *.
  rewrite update_xy_ok.
  - eexists; split; [reflexivity|]. cbn; split; [exact Hc | exact Ht1].
  - rewrite Ht1, Hc; apply Forall_app; split.
    + eapply Forall_impl; [|exact HL].
      intros c [-> ->]; split; reflexivity.
    + apply Forall_forall; intros c Hin.
      apply in_map_iff in Hin as (i & <- & _); split; reflexivity.
Qed.

(** X10. On a reachable Epicycle whose time domain is empty,
    [add_circles] with a [radius] list no longer than the other two, and
    of the length of [speed] unless [speed] and [angle_i] have one
    length, returns normally: it appends one circle per item of
    [radius], and the items of [speed] and [angle_i] beyond are
    ignored without an error. *)
Theorem add_circles_ignores_surplus (e : Epicycle.t F)
  (radius speed angle_i : list F) :
  reachable e ->
  Epicycle._time e = [] ->
  length radius <= length speed ->
  length radius <= length angle_i ->
  length radius = length speed \/ length speed = length angle_i ->
  exists e',
    Epicycle.add_circles radius speed angle_i e = (Ok tt, e')
    /\ Epicycle._circles e'
       = Epicycle._circles e
         ++ map (fresh_circle radius speed angle_i [])
              (seq 0 (length radius))
    /\ Epicycle._time e' = [].
Proof.
  intros Hr Ht; apply add_circles_on_empty_locals; [exact Ht|].
  pose proof (reachable_locals Hr) as HL; rewrite Ht in HL.
  eapply Forall_impl; [|exact HL].
  intros c [[Lx Ly]|Hl]; [|exact Hl].
  split; now apply length_zero_iff_nil.
Qed.

(** X8. The batch path from a fresh Epicycle: [add_circles] with three
    lists of one length returns normally, and after [e.time = ts] the
    trajectory has, for every sample [t], the sum over the positions [i]
    of [radius[i] * cos(t * speed[i] + angle_i[i])] in row 0, the same
    with [sin] in row 1, then 0.0 and 1.0. *)
Theorem batch_then_time_trajectory (radius speed angle_i : list F)
  (ts : Np.vec F) :
  length radius = length speed ->
  length speed = length angle_i ->
  exists e1 e2 e3,
    Epicycle.add_circles radius speed angle_i Epicycle.__init__
    = (Ok tt, e1)
    /\ set_property Epicycle.time_setter (PyNdarray (Np.Arr1 ts)) e1
       = (Ok tt, e2)
    /\ Epicycle.trajectory e2
       = (Ok (Np.Arr2
                [map (fun t =>
                        fsum (map (fun i =>
                                     fmul (nth i radius fzero)
                                       (fcos (fadd (fmul t (nth i speed fzero))
                                                (nth i angle_i fzero))))
                                (seq 0 (length radius))))
                   ts;
                 map (fun t =>
                        fsum (map (fun i =>
                                     fmul (nth i radius fzero)
                                       (fsin (fadd (fmul t (nth i speed fzero))
                                                (nth i angle_i fzero))))
                                (seq 0 (length radius))))
                   ts;
                 map (fun _ => fzero) ts;
                 map (fun _ => fone) ts]), e3).
Proof.
  intros E1 E2.
  destruct (@add_circles_on_empty_locals Epicycle.__init__
              radius speed angle_i eq_refl (Forall_nil _))
    as (e1 & Ea & Hc & Ht); [lia | lia | now left |].
  exists e1, (time_assigned ts e1); eexists.
  split; [exact Ea|].
  split; [rewrite time_setter_call; apply time_set_rank1|].
  destruct (time_assigned_lengths ts e1) as [Lx Ly].
  rewrite trajectory_recompute by (assumption || reflexivity).
  cbn [time_assigned Epicycle._x Epicycle._y Epicycle._time
         Epicycle._circles].
  rewrite (aggregate_refreshed ts (Epicycle._circles e1) Circle._local_x x_at)
    by reflexivity.
  rewrite (aggregate_refreshed ts (Epicycle._circles e1) Circle._local_y y_at)
    by reflexivity.
  rewrite Hc; cbn [Epicycle.__init__ Epicycle._circles app].
  assert (Ex : forall (g : Circle.t F -> F -> F) (k : nat -> F -> F),
             (forall i t,
                 g (fresh_circle radius speed angle_i [] i) t = k i t) ->
             map (fun t =>
                    fsum (map (fun c => g c t)
                            (map (fresh_circle radius speed angle_i [])
                               (seq 0 (length radius))))) ts
             = map (fun t =>
                      fsum (map (fun i => k i t) (seq 0 (length radius))))
                 ts).
  { intros g k Hk; apply map_ext; intros t; rewrite map_map.
    f_equal; apply map_ext; intros i; apply Hk. }
  rewrite (Ex x_at (fun i t =>
             fmul (nth i radius fzero)
               (fcos (fadd (fmul t (nth i speed fzero))
                        (nth i angle_i fzero)))))
    by reflexivity.
  rewrite (Ex y_at (fun i t =>
             fmul (nth i radius fzero)
               (fsin (fadd (fmul t (nth i speed fzero))
                        (nth i angle_i fzero)))))
    by reflexivity.
  reflexivity.
Qed.

End BatchAddition.

(** ** The period with a zero speed *)

Section ZeroSpeed.
Context {F : Type} `{Float64 F}.

Lemma lcm_reduce_with_0 (zs : list Z) :
  In 0%Z zs -> Np.lcm_reduce zs = Ok 0%Z.
Proof.
  destruct zs as [|z rest]; intros Hin; [destruct Hin|].
  unfold Np.lcm_reduce; f_equal.
  destruct Hin as [->|Hin]; [apply np_fold_from_0 | now apply np_fold_with_0].
Qed.

(** X11. A circle whose integer-cast speed is 0 decides the period: on a
    reachable Epicycle whose integer-cast speeds fit int64, if one of
    them is 0 then [period] is [2 * pi / 0] computed in float64,
    whatever the other speeds are and even when their least common
    multiple does not fit 64 bits. *)
Theorem period_with_zero_speed (e : Epicycle.t F) :
  let zs := map (fun c => trunc (Circle.speed c)) (Epicycle._circles e) in
  reachable e ->
  forallb Np.in_int64 zs = true ->
  In 0%Z zs ->
  fst (Epicycle.period e) = Ok (fdiv (fmul (of_int 2) fpi) (of_int 0)).
Proof.
  intros zs Hr Hfit Hin.
  rewrite (reachable_period Hr); unfold period_of.
  assert (Ez : zs = map trunc (map Circle.speed (Epicycle._circles e)))
    by (subst zs; now rewrite map_map).
  rewrite array_int_fits by (now rewrite <- Ez).
  rewrite <- Ez, lcm_reduce_with_0 by assumption.
  reflexivity.
Qed.

End ZeroSpeed.

(** ** The caller: flattening the trajectory into points *)

Section Flatten.
Context {F : Type} `{Float64 F}.

Lemma columns_of_maps (A : Type) (f g h k : A -> F) (ts : list A) :
  columns (length ts) [map f ts; map g ts; map h ts; map k ts]
  = map (fun t => [f t; g t; h t; k t]) ts.
Proof.
  induction ts as [|t ts IH]; [reflexivity|].
  cbn [length columns map hd tl]. now rewrite IH.
Qed.

(** X12. What the script hands to the spline: after [e.time = ts], the
    column-major flattening [e.trajectory.flatten("F")] lists the
    samples in order, four floats per sample: the two sums of the
    circles' [radius * cos(t * speed + angle_i)] and
    [radius * sin(t * speed + angle_i)], then 0.0 and 1.0; the matrix
    has [len(ts)] columns. *)
Theorem flattened_trajectory_points (e : Epicycle.t F) (ts : Np.vec F) :
  exists (e1 e2 : Epicycle.t F) (traj : Np.ndarray F),
    set_property Epicycle.time_setter (PyNdarray (Np.Arr1 ts)) e = (Ok tt, e1)
    /\ Epicycle.trajectory e1 = (Ok traj, e2)
    /\ nth 1 (Np.shape traj) 0 = length ts
    /\ flatten_F traj
       = flat_map
           (fun t =>
              [fsum (map (fun c =>
                            fmul (Circle.radius c)
                              (fcos (fadd (fmul t (Circle.speed c))
                                       (Circle.angle_i c))))
                       (Epicycle._circles e));
               fsum (map (fun c =>
                            fmul (Circle.radius c)
                              (fsin (fadd (fmul t (Circle.speed c))
                                       (Circle.angle_i c))))
                       (Epicycle._circles e));
               fzero; fone])
           ts.
Proof.
  destruct (time_assigned_lengths ts e) as [Lx Ly].
  eexists; eexists; eexists.
  split; [rewrite time_setter_call; apply time_set_rank1|].
  split; [apply trajectory_recompute; [reflexivity | exact Lx | exact Ly]|].
  cbn [time_assigned Epicycle._x Epicycle._y Epicycle._time
         Epicycle._circles].
  rewrite (aggregate_refreshed ts (Epicycle._circles e) Circle._local_x x_at)
    by reflexivity.
  rewrite (aggregate_refreshed ts (Epicycle._circles e) Circle._local_y y_at)
    by reflexivity.
  unfold Np.zeros_like, Np.ones_like.
  cbn [Np.shape flatten_F hd nth]; rewrite length_map.
  split; [reflexivity|].
  rewrite columns_of_maps, flat_map_concat_map. reflexivity.
Qed.

End Flatten.

(** *** Concrete runs of the further properties, on the reals *)

(** The state after [e.time = [0.0]] and a raising
    [e.add_circles([1.0], [2.0], [0.0])]. *)
Lemma trajectory_total_witness :
  let e : Epicycle.t R :=
    exec (AddCircles [1%R] [2%R] [0%R])
      (exec (TimeSet (PyNdarray (Np.Arr1 [0%R]))) Epicycle.__init__) in
  reachable e
  /\ exists (X Y : Np.vec R) (e' : Epicycle.t R),
       Epicycle.trajectory e
       = (Ok (Np.Arr2 [X; Y;
                       map (fun _ => fzero) (Epicycle._time e);
                       map (fun _ => fone) (Epicycle._time e)]), e')
       /\ length X = length (Epicycle._time e)
       /\ length Y = length (Epicycle._time e).
Proof.
  intros e.
  assert (Hr : reachable e)
    by (do 2 apply reachable_exec; apply reachable_init).
  split; [exact Hr|].
  destruct (@trajectory_total R Float64_R e Hr)
    as (X & Y & e' & E & Lx & Ly & _).
  exists X, Y, e'; split; [exact E | split; [exact Lx | exact Ly]].
Defined.


Lemma period_fixed_until_circle_added_witness :
  let e : Epicycle.t R := exec (AddCircle 1%R 2%R 0%R) Epicycle.__init__ in
  let l : list (op R) :=
    [TimeSet (PyNdarray (Np.Arr1 [0%R])); TrajectoryGet; PeriodGet] in
  (reachable e /\ forallb (fun o => negb (adds_circles o)) l = true)
  /\ fst (Epicycle.period (exec_all l e)) = fst (Epicycle.period e).
Proof.
  intros e l.
  assert (Hr : reachable e) by (apply reachable_exec, reachable_init).
  split; [split; [exact Hr | reflexivity]|].
  apply (@period_fixed_until_circle_added R Float64_R e l Hr).
  reflexivity.
Defined.

Lemma add_circles_index_error_witness :
  (length [1%R; 2%R] = length [2%R; 7%R]
   \/ length [2%R; 7%R] = length [0%R])
  /\ Nat.min (length [2%R; 7%R]) (length [0%R]) < length [1%R; 2%R]
  /\ exists e',
       Epicycle.add_circles [1%R; 2%R] [2%R; 7%R] [0%R] Epicycle.__init__
       = (Raise IndexError, e')
       /\ length (Epicycle._circles e') = 1.
Proof.
  split; [left; reflexivity|]. split; [apply le_n|].
  destruct (@add_circles_index_error R Float64_R Epicycle.__init__
              [1%R; 2%R] [2%R; 7%R] [0%R])
    as (e' & E & Hc & _).
  - left; reflexivity.
  - apply le_n.
  - exists e'; split; [exact E|]. rewrite Hc; reflexivity.
Defined.

Lemma add_circles_ignores_surplus_witness :
  (reachable (Epicycle.__init__ (F := R))
   /\ Epicycle._time (Epicycle.__init__ (F := R)) = []
   /\ length [1%R; 2%R] <= length [2%R; 7%R; 3%R]
   /\ length [1%R; 2%R] <= length [0%R; 0%R; 0%R]
   /\ (length [1%R; 2%R] = length [2%R; 7%R; 3%R]
       \/ length [2%R; 7%R; 3%R] = length [0%R; 0%R; 0%R]))
  /\ exists e',
       Epicycle.add_circles [1%R; 2%R] [2%R; 7%R; 3%R] [0%R; 0%R; 0%R]
         Epicycle.__init__
       = (Ok tt, e')
       /\ length (Epicycle._circles e') = 2.
Proof.
  split.
  - split; [apply reachable_init|]. split; [reflexivity|].
    split; [apply le_S, le_n|]. split; [apply le_S, le_n|].
    right; reflexivity.
  - destruct (@add_circles_ignores_surplus R Float64_R Epicycle.__init__
                [1%R; 2%R] [2%R; 7%R; 3%R] [0%R; 0%R; 0%R])
      as (e' & E & Hc & _).
    + apply reachable_init.
    + reflexivity.
    + apply le_S, le_n.
    + apply le_S, le_n.
    + right; reflexivity.
    + exists e'; split; [exact E|]. rewrite Hc; reflexivity.
Defined.

Lemma batch_then_time_trajectory_witness :
  (length [1%R; 2%R] = length [IZR 2; IZR 7]
   /\ length [IZR 2; IZR 7] = length [0%R; 0%R])
  /\ exists e1 e2 e3 traj,
       Epicycle.add_circles [1%R; 2%R] [IZR 2; IZR 7] [0%R; 0%R]
         Epicycle.__init__
       = (Ok tt, e1)
       /\ set_property Epicycle.time_setter (PyNdarray (Np.Arr1 [0%R])) e1
          = (Ok tt, e2)
       /\ Epicycle.trajectory e2 = (Ok traj, e3).
Proof.
  split; [split; reflexivity|].
  destruct (@batch_then_time_trajectory R Float64_R
              [1%R; 2%R] [IZR 2; IZR 7] [0%R; 0%R] [0%R] eq_refl eq_refl)
    as (e1 & e2 & e3 & Ea & Et & Etr).
  exists e1, e2, e3; eexists.
  split; [exact Ea|]. split; [exact Et | exact Etr].
Defined.

(** Speeds [2 ^ 62], 3 and 0: the least common multiple of the first two
    does not fit 64 bits. *)
Lemma period_with_zero_speed_witness :
  let e : Epicycle.t R :=
    exec (AddCircle 1%R (IZR 0) 0%R)
      (exec (AddCircle 1%R (IZR 3) 0%R)
         (exec (AddCircle 1%R (IZR (2 ^ 62)) 0%R) Epicycle.__init__)) in
  let zs := map (fun c => trunc (Circle.speed c)) (Epicycle._circles e) in
  (reachable e /\ forallb Np.in_int64 zs = true /\ In 0%Z zs)
  /\ fst (Epicycle.period e) = Ok (2 * PI / IZR 0)%R.
Proof.
  intros e zs.
  assert (Hr : reachable e)
    by (do 3 apply reachable_exec; apply reachable_init).
  assert (Ez : zs = [(2 ^ 62)%Z; 3%Z; 0%Z]).
  { change zs with [Rtrunc (IZR (2 ^ 62)); Rtrunc (IZR 3); Rtrunc (IZR 0)].
    now rewrite !Rtrunc_IZR. }
  assert (Hfit : forallb Np.in_int64 zs = true)
    by (rewrite Ez; vm_compute; reflexivity).
  assert (Hin : In 0%Z zs) by (rewrite Ez; right; right; now left).
  split; [repeat split; assumption|].
  exact (@period_with_zero_speed R Float64_R e Hr Hfit Hin).
Defined.
